(* ===== verification/_CoqProject ===== *)
-Q . S2P
Prelude.v
PyStr.v
Digits.v
NumModel.v
Binary64.v
Rounding.v
Reparse.v
Rescale.v
Patch.v
Driver.v
