(* ===== verification/Prelude.v ===== *)
(** * A verification development of [src/scale_vmec.py]

    The program rescales a VMEC namelist input file.  It reads the file
    line by line ([my_patch]), classifies every line (empty, group marker
    [&...], group end [/...], assignment [key = ...], continuation), picks a
    scale factor for recognised field names from [R_scale] and [B_scale]
    by ordered prefix matching, multiplies the numbers of the line by that
    factor and re-renders them with the Python format ["{: .15e}"].  The
    factor of an assignment line is kept in the variable [scale] and reused
    by the continuation lines that follow.  [scale_vmec] writes the result
    to a file and the [__main__] block reads its arguments from [sys.argv].

    ** Files and what they model

    - [Prelude] (this file): Python strings as [list ascii] ([str]),
      Python exceptions ([exn]), the result monad [result] (an exception
      or a value, with stdpp's [x ← c; k] notation), [map_res] for a
      Python loop that may raise, the tactics [invc], [case_res] and
      [res_inv], and the hint databases [pyres] and [pyrw].
    - [PyStr]: the [str] methods the program calls ([split] with a
      separator, [split()], [split(None, 1)], [split(sep, 1)], [strip],
      [lower], [in], [l[-1]], [l[:-1]], [join]) translated from CPython's
      behaviour on ASCII text, with their laws (join/split round trip,
      tokens are non-empty and blank-free, newline bookkeeping).
    - [Digits]: decimal digit strings, as the float parser reads them and
      the formatter writes them, with their round trip.
    - [NumModel]: the interface [Class NumModel] the engine uses
      ([float(s)], [*], [/] raising [ZeroDivisionError], [x**2] raising
      [OverflowError], the formatter ["{: .15e}"]).
    - [Binary64]: the instance [binary64]: IEEE-754 binary64 arithmetic
      from the Standard Library's [SpecFloat] (round to nearest even), a
      correctly rounded parser for Python's [float()] grammar (blanks,
      sign, underscores, exponent, [inf]/[nan]), and the formatter with
      round-half-even on the exact binary value.
    - [Rounding]: the formatter's output read as a rational ([Q]): it is
      the exact binary value rounded to sixteen significant digits.
    - [Reparse]: [float()] of the formatter's text reads back exactly the
      printed decimal, then rounds it to binary64.
    - [Rescale]: the three local functions [rescale_followup],
      [rescale_multiarrayline] and [rescale_arrayline] of [my_patch].
    - [Patch]: the loop of [my_patch] (lines 71-151): the comment split,
      the classification of a line, the [if]/[elif] chain of field
      prefixes ([classify]) with its factor ([factor]) and rescaling
      style, the handler [handle_line] with the state record [state]
      (the variables [scale] and [func]), the re-attachment of the
      comment, and the pass [patch_run]/[my_patch] over the lines.
    - [Driver]: [f.readlines()] in text mode ([readlines], universal
      newlines), [scale_vmec] on a file system modelled as a [gmap] from
      paths to contents, and the argument handling of [__main__] ([main],
      whose printing is a list of events).

    Components interact through [NumModel]: [Rescale] and [Patch] are
    proved in sections over any instance, and their concrete examples
    and witnesses run the [binary64] instance by [vm_compute].

    ** What the theorems show

    Engine ([Patch], [Rescale]): one output line per input line; an
    output line ends with a newline exactly when its input line does; its
    characters come from its input line, the separators the code writes
    and rendered numbers; a non-empty inline comment is re-attached
    verbatim after [" !"]; empty lines, group markers and unrecognised
    fields are passed through; every continuation line is rescaled with
    the factor of the nearest preceding assignment line (the loop state
    refines the declarative [last_assign]); an assignment line is
    rescaled by its branch's function with its branch's factor; a
    continuation line before any assignment raises [UnboundLocalError];
    the first line that raises aborts the pass; with binary64 numbers a
    factor raises only on an [ac] line with a zero [R_scale] or when a
    square overflows, and a multi-array line whose last value carries a
    comma aborts the pass; a last line made of a lone [!] comes out
    empty; the exact success conditions, outputs and errors of the three
    rescaling functions; the [raxis_cc] and [zaxis_cc] branches are dead.
    Driver: [readlines] keeps the whole text with its line ends
    translated, returns well-formed lines, and inverts concatenation on
    carriage-return-free text; a failed run changes no file; a
    successful run replaces exactly the output file, whose newline count
    is the input's and which holds no carriage return; the argument
    handling of [__main__], its errors included.  Numbers: the formatter
    prints the exact value rounded to sixteen significant digits, in 22
    characters when the exponent has two digits, and [float()] of that
    text reads exactly that decimal back.

    ** Bounds and fuel

    Strings are finite lists and every loop of the source is a structural
    recursion on a list.  [Digits.zdigits] takes the binary length of the
    number as fuel, which bounds its decimal length ([zdigits_spec] proves
    it enough).  Binary64 values are [SpecFloat] values with precision 53
    and [emax] 1024, so overflow is represented and [x**2] detects it.

    ** Not modelled

    Non-ASCII characters (the model's characters are ASCII), the text
    printed by [__main__] (an event without its text), I/O failures other
    than a missing input file, numpy beyond elementwise binary64
    multiplication, and the dead local function [unit_scaling] (never
    called). *)

From Stdlib Require Export Ascii ZArith Lia.
From Stdlib Require String.
From stdpp Require Export base list strings sets.

(** ** Python text *)

(** A Python [str] read from a text file, as a list of ASCII characters. *)
Abbreviation str := (list ascii).

(** Rocq string literals as Python strings. *)
Definition pystr (s : string) : str := String.list_ascii_of_string s.

Definition nl : ascii := "010"%char.

(** A line as [f.readlines()] returns it: its text and a newline. *)
Definition pyline (s : string) : str := pystr s ++ [nl].

(** ** Python exceptions raised by the program *)

Inductive exn :=
  | ValueError (arg : str)
  | IndexError
  | UnboundLocalError (name : str)
  | ZeroDivisionError
  | OverflowError
  | FileNotFoundError (path : str).

#[export] Instance exn_eq_dec : EqDecision exn.
Proof. solve_decision. Defined.

(** ** The result of a computation that may raise *)

Inductive result (A : Type) : Type :=
  | Ok (a : A)
  | Err (e : exn).
Arguments Ok {A} a.
Arguments Err {A} e.

#[export] Instance result_ret : MRet result := λ A a, Ok a.
#[export] Instance result_bind : MBind result :=
  λ A B f r, match r with Ok a => f a | Err e => Err e end.

Declare Scope py_scope.
Delimit Scope py_scope with py.
(** [raise e] and [ok x], as the code reads. *)
Notation "'raise' e" := (Err e) (at level 10) : py_scope.
Open Scope py_scope.

(** A Python [for] loop that builds a list and may raise: the first
    exception aborts the loop. *)
Fixpoint map_res {A B} (f : A → result B) (l : list A) : result (list B) :=
  match l with
  | [] => Ok []
  | a :: l' => b ← f a; bs ← map_res f l'; Ok (b :: bs)
  end.

(** ** Tactics shared by the development *)

Ltac invc H := inversion H; subst; clear H.

(** Destruct the first [result] scrutinee of a match in a hypothesis or
    the goal, keeping its equation. *)
Ltac case_res :=
  match goal with
  | H : context [match ?r with Ok _ => _ | Err _ => _ end] |- _ =>
      let E := fresh "Hr" in destruct r eqn:E
  | |- context [match ?r with Ok _ => _ | Err _ => _ end] =>
      let E := fresh "Hr" in destruct r eqn:E
  end.

Create HintDb pyres discriminated.
Create Rewrite HintDb pyrw.

(** ** Lemmas on [result] and [map_res] *)

Lemma bind_Ok {A B} (a : A) (k : A → result B) : (Ok a ≫= k) = k a.
Proof. reflexivity. Qed.

Lemma bind_Err {A B} (e : exn) (k : A → result B) : (Err e ≫= k) = Err e.
Proof. reflexivity. Qed.

Lemma bind_eq_Ok {A B} (r : result A) (k : A → result B) b :
  (r ≫= k) = Ok b ↔ ∃ a, r = Ok a ∧ k a = Ok b.
Proof. destruct r; simpl; split; naive_solver. Qed.

Lemma bind_eq_Err {A B} (r : result A) (k : A → result B) e :
  (r ≫= k) = Err e ↔ r = Err e ∨ ∃ a, r = Ok a ∧ k a = Err e.
Proof. destruct r; simpl; split; naive_solver. Qed.

#[export] Hint Rewrite @bind_Ok @bind_Err : pyrw.

(** Invert successful binds in the hypotheses: [c ≫= k = Ok b] becomes
    [c = Ok a] and [k a = Ok b], down to the equations on values. *)
Ltac res_inv :=
  repeat match goal with
  | H : (_ ≫= _) = Ok _ |- _ =>
      let x := fresh "x" in let Hx := fresh "Hx" in
      apply bind_eq_Ok in H as (x & Hx & H);
      try (match type of x with (_ * _)%type => destruct x end)
  | H : Ok _ = Ok _ |- _ => injection H as H
  | H : (_, _) = (_, _) |- _ => injection H as H
  end; simplify_eq.

Lemma map_res_Ok_iff {A B} (f : A → result B) l bs :
  map_res f l = Ok bs ↔ Forall2 (λ a b, f a = Ok b) l bs.
Proof.
  revert bs; induction l as [|a l IH]; intros bs; simpl.
  - split; [intros [= <-]; constructor | intros H; invc H; done].
  - rewrite bind_eq_Ok. setoid_rewrite bind_eq_Ok. split.
    + intros (b & Hb & bs' & Hbs & [= <-]). constructor; [done | by apply IH].
    + intros H; invc H. eexists; split; [done|]. eexists; split; [by apply IH | done].
Qed.

Lemma map_res_Ok_length {A B} (f : A → result B) l bs :
  map_res f l = Ok bs → length bs = length l.
Proof. rewrite map_res_Ok_iff. intros H. symmetry. by eapply Forall2_length. Qed.

(** A loop that raises names the element that raised. *)
Lemma map_res_Err {A B} (f : A → result B) l e :
  map_res f l = Err e → ∃ a, a ∈ l ∧ f a = Err e.
Proof.
  induction l as [|a l IH]; simpl; [done|].
  rewrite bind_eq_Err. setoid_rewrite bind_eq_Err.
  intros [H | (b & _ & [H | (bs & H & [=])])].
  - exists a. split; [left | done].
  - destruct (IH H) as (a' & Ha' & He). exists a'. split; [by right | done].
Qed.

(** Every result of a successful loop comes from an element. *)
Lemma map_res_Ok_elem {A B} (f : A → result B) l bs b :
  map_res f l = Ok bs → b ∈ bs → ∃ a, a ∈ l ∧ f a = Ok b.
Proof.
  revert bs; induction l as [|a l IH]; intros bs; simpl; [intros [= <-]; set_solver|].
  rewrite bind_eq_Ok. setoid_rewrite bind_eq_Ok.
  intros (b0 & Hb0 & bs' & Hbs & [= <-]) [->|Hb]%elem_of_cons; [exists a; split; [left|]; done|].
  destruct (IH bs' Hbs Hb) as (a' & Ha' & Hf). exists a'. split; [by right|done].
Qed.

(** When every element succeeds, so does the loop. *)
Lemma map_res_all_Ok {A B} (f : A → result B) l :
  (∀ a, a ∈ l → ∃ b, f a = Ok b) → ∃ bs, map_res f l = Ok bs.
Proof.
  induction l as [|a l IH]; intros Hall; simpl; [by eexists|].
  destruct (Hall a) as [b ->]; [by left|]. simpl.
  destruct IH as [bs ->]; [intros x Hx; apply Hall; by right|]. by eexists.
Qed.

Lemma map_res_map {A B} (f : A → B) l : map_res (λ a, Ok (f a)) l = Ok (map f l).
Proof. induction l as [|a l IH]; simpl; [done|]. by rewrite IH. Qed.

Lemma elem_of_drop_sub {A} (x : A) n (l : list A) : x ∈ drop n l → x ∈ l.
Proof. intros Hx. rewrite <-(take_drop n l). set_solver. Qed.

(** Two relations that agree on the elements of [l] relate [l] to the
    same lists. *)
Lemma Forall2_iff_in {A B} (P Q : A → B → Prop) (l : list A) (k : list B) :
  (∀ a b, a ∈ l → P a b ↔ Q a b) → Forall2 P l k ↔ Forall2 Q l k.
Proof.
  revert k; induction l as [|a l IH]; intros k Hpq; split; intros Hf; invc Hf; constructor.
  1,3: by apply Hpq; [left|].
  all: eapply IH; [|done]; intros a0 b0 Ha0; apply Hpq; by right.
Qed.

#[export] Hint Resolve map_res_Ok_length : pyres.
