(* ===== verification/PyStr.v ===== *)
(** * Python [str] methods used by [src/scale_vmec.py]

    Each definition follows CPython's algorithm for an ASCII [str]:
    [s.split(c)] ([split_sep]), [s.split(c, 1)] ([split_sep1]),
    [s.split()] ([split_ws]), [s.split(None, 1)] ([split_ws1]),
    [s.strip()] ([strip]), [s.lower()] ([lower]), [c in s] ([contains]),
    [s[-1]] ([last_char]), [s[:-1]] ([drop_last]) and [sep.join(ws)]
    ([join]).  Whitespace is [str.isspace] restricted to ASCII. *)

From S2P Require Import Prelude.

(** ** Characters *)

(** [str.isspace] on ASCII: [\t \n \v \f \r], the separators
    [\x1c]..[\x1f] and the space. *)
Definition is_space (c : ascii) : bool :=
  let n := nat_of_ascii c in
  (n =? 32) || ((9 <=? n) && (n <=? 13)) || ((28 <=? n) && (n <=? 31)).

(** [str.lower] on one ASCII character. *)
Definition lower_char (c : ascii) : ascii :=
  let n := nat_of_ascii c in
  if (65 <=? n) && (n <=? 90) then ascii_of_nat (n + 32) else c.

(** ** Methods *)

(** [s.split(c)] for a one-character separator: every occurrence splits;
    the result has one more piece than there are separators. *)
Fixpoint split_sep (c : ascii) (s : str) : list str :=
  match s with
  | [] => [[]]
  | x :: s' =>
      let r := split_sep c s' in
      if decide (x = c) then [] :: r
      else match r with w :: ws => (x :: w) :: ws | [] => [[x]] end
  end.

(** [s.split(c, 1)]: at most one split, at the first occurrence. *)
Fixpoint split_sep1 (c : ascii) (s : str) : list str :=
  match s with
  | [] => [[]]
  | x :: s' =>
      if decide (x = c) then [[]; s']
      else match split_sep1 c s' with w :: ws => (x :: w) :: ws | [] => [[x]] end
  end.

(** The scanner of CPython's [split_whitespace] with no limit: [acc] is
    the current token, reversed. *)
Fixpoint split_ws_acc (acc : str) (s : str) : list str :=
  match s with
  | [] => match acc with [] => [] | _ => [rev acc] end
  | x :: s' =>
      if is_space x then
        match acc with
        | [] => split_ws_acc [] s'
        | _ => rev acc :: split_ws_acc [] s'
        end
      else split_ws_acc (x :: acc) s'
  end.

(** [s.split()]. *)
Definition split_ws (s : str) : list str := split_ws_acc [] s.

(** [s.lstrip()]. *)
Fixpoint lstrip (s : str) : str :=
  match s with
  | x :: s' => if is_space x then lstrip s' else s
  | [] => []
  end.

(** [s.rstrip()]. *)
Definition rstrip (s : str) : str := rev (lstrip (rev s)).

(** [s.strip()]. *)
Definition strip (s : str) : str := rstrip (lstrip s).

(** The first token of [s] (up to the first blank) and what follows it. *)
Fixpoint take_token (s : str) : str * str :=
  match s with
  | [] => ([], [])
  | x :: s' =>
      if is_space x then ([], s)
      else let '(t, r) := take_token s' in (x :: t, r)
  end.

(** [s.split(None, 1)]: skip leading blanks, cut one token, skip the
    blanks after it, keep the rest (with its trailing blanks). *)
Definition split_ws1 (s : str) : list str :=
  match lstrip s with
  | [] => []
  | s1 =>
      let '(t, r) := take_token s1 in
      match lstrip r with [] => [t] | r' => [t; r'] end
  end.

(** [s.lower()]. *)
Definition lower (s : str) : str := map lower_char s.

(** [c in s]. *)
Definition contains (c : ascii) (s : str) : bool := bool_decide (c ∈ s).

(** [s[-1]], which raises [IndexError] on the empty string. *)
Definition last_char (s : str) : result ascii :=
  match last s with Some c => Ok c | None => Err IndexError end.

(** [s[:-1]]. *)
Definition drop_last (s : str) : str := take (length s - 1) s.

(** [sep.join(ws)]. *)
Fixpoint join (sep : str) (ws : list str) : str :=
  match ws with
  | [] => []
  | [w] => w
  | w :: ws' => w ++ sep ++ join sep ws'
  end.

(** A string ends with a newline, as [l[-1] == '\n'] tests it. *)
Definition ends_nl (s : str) : bool := bool_decide (last s = Some nl).

(** ** Laws *)

Section Laws.
Implicit Types (c x : ascii) (s t : str).

Lemma split_sep_nonempty c s : split_sep c s ≠ [].
Proof.
  destruct s as [|x s]; simpl; [done|].
  case_decide; [done|]. by destruct (split_sep c s).
Qed.

(** Joining the pieces of [s.split(c)] with [c] gives back [s]. *)
Lemma join_split_sep c s : join [c] (split_sep c s) = s.
Proof.
  induction s as [|x s IH]; simpl; [done|].
  pose proof (split_sep_nonempty c s) as Hne.
  case_decide; subst.
  - destruct (split_sep c s) as [|w ws] eqn:E; [done|]. simpl.
    by rewrite <-IH.
  - destruct (split_sep c s) as [|w [|w' ws]] eqn:E; [done| |]; simpl in *.
    + by rewrite IH.
    + by rewrite IH.
Qed.

(** No piece of [s.split(c)] contains [c]. *)
Lemma split_sep_pieces c s w : w ∈ split_sep c s → c ∉ w.
Proof.
  revert w; induction s as [|x s IH]; intros w; simpl.
  - intros ->%list_elem_of_singleton. apply not_elem_of_nil.
  - pose proof (split_sep_nonempty c s) as Hne.
    case_decide; subst.
    + intros [-> | Hw]%elem_of_cons; [apply not_elem_of_nil | by apply IH].
    + destruct (split_sep c s) as [|w0 ws] eqn:E; [done|].
      intros [-> | Hw]%elem_of_cons.
      * rewrite elem_of_cons. intros [-> | ?]; [done|].
        apply (IH w0); [by left | done].
      * apply IH. by right.
Qed.

(** [s.split(c)] has one piece more than [s] has separators. *)
Lemma split_sep_length c s :
  length (split_sep c s) = S (length (filter (λ x, x = c) s)).
Proof.
  induction s as [|x s IH]; simpl; [done|].
  pose proof (split_sep_nonempty c s) as Hne.
  rewrite filter_cons. case_decide; simpl; [by rewrite IH|].
  destruct (split_sep c s); [done|]. simpl in *. done.
Qed.

(** [s.split(c, 1)]: no separator gives [[s]], otherwise the text before
    the first separator and the text after it. *)
Lemma split_sep1_spec c s :
  ((c ∉ s) ∧ split_sep1 c s = [s]) ∨
  (∃ a b, s = a ++ c :: b ∧ (c ∉ a) ∧ split_sep1 c s = [a; b]).
Proof.
  induction s as [|x s IH]; simpl.
  - left. split; [apply not_elem_of_nil | done].
  - case_decide; subst.
    + right. exists [], s. split; [done|]. split; [apply not_elem_of_nil|done].
    + destruct IH as [[Hc ->] | (a & b & -> & Ha & ->)].
      * left. split; [|done]. rewrite elem_of_cons. intros [?|?]; auto.
      * right. exists (x :: a), b. split; [done|]. split; [|done].
        rewrite elem_of_cons. intros [?|?]; auto.
Qed.

Lemma lower_length s : length (lower s) = length s.
Proof. apply length_map. Qed.

Lemma lower_app s t : lower (s ++ t) = lower s ++ lower t.
Proof. apply map_app. Qed.

Lemma join_app_single sep ws w :
  ws ≠ [] → join sep (ws ++ [w]) = join sep ws ++ sep ++ w.
Proof.
  induction ws as [|w0 ws IH]; [done|]. intros _.
  destruct ws as [|w1 ws]; simpl in *; [done|].
  rewrite IH by done. by rewrite !app_assoc.
Qed.

(** Every token of [s.split()] is non-empty and blank-free. *)
Lemma split_ws_acc_tokens acc s w :
  Forall (λ c, is_space c = false) acc →
  w ∈ split_ws_acc acc s → w ≠ [] ∧ Forall (λ c, is_space c = false) w.
Proof.
  revert acc; induction s as [|x s IH]; intros acc Hacc; simpl.
  - destruct acc as [|a acc]; [set_solver|]. intros ->%list_elem_of_singleton.
    split; [by intros ?%(f_equal length); rewrite length_rev in *|]. by apply Forall_rev.
  - destruct (is_space x) eqn:Hx.
    + destruct acc as [|a acc]; [by apply IH|].
      intros [->|Hw]%elem_of_cons; [|by apply (IH [])].
      split; [by intros ?%(f_equal length); rewrite length_rev in *|]. by apply Forall_rev.
    + apply IH. by constructor.
Qed.

Lemma split_ws_tokens s w :
  w ∈ split_ws s → w ≠ [] ∧ Forall (λ c, is_space c = false) w.
Proof. apply split_ws_acc_tokens. constructor. Qed.

(** The characters of a joined piece are characters of the join. *)
Lemma join_elem sep ws w x : w ∈ ws → x ∈ w → x ∈ join sep ws.
Proof.
  induction ws as [|w0 ws IH]; [set_solver|].
  intros [->|Hw]%elem_of_cons Hx; destruct ws as [|w1 ws]; simpl; try set_solver.
Qed.

Lemma drop_last_app s t : t ≠ [] → drop_last (s ++ t) = s ++ drop_last t.
Proof.
  intros Ht. unfold drop_last. rewrite length_app.
  destruct t as [|c t]; [done|].
  rewrite take_app, take_ge by (simpl; lia). f_equal. f_equal. simpl. lia.
Qed.

Lemma drop_last_snoc s c : drop_last (s ++ [c]) = s.
Proof. rewrite drop_last_app by done. by rewrite app_nil_r. Qed.

Lemma drop_last_sub s x : x ∈ drop_last s → x ∈ s.
Proof.
  unfold drop_last. rewrite elem_of_take. intros (i & Hi & _). by eapply list_elem_of_lookup_2.
Qed.

Lemma ends_nl_snoc s : ends_nl (s ++ [nl]) = true.
Proof. unfold ends_nl. by rewrite last_snoc, bool_decide_eq_true. Qed.

Lemma ends_nl_free s : nl ∉ s → ends_nl s = false.
Proof.
  intros Hs. unfold ends_nl. apply bool_decide_eq_false. intros Hl.
  apply Hs. by apply last_Some_elem_of.
Qed.

Lemma drop_last_free s x : x ∉ s → x ∉ drop_last s.
Proof. intros Hs Hd. by apply Hs, drop_last_sub. Qed.

(** A character absent from the separator and from every piece is
    absent from the join. *)
Lemma join_free sep ws x : x ∉ sep → (∀ w, w ∈ ws → x ∉ w) → x ∉ join sep ws.
Proof.
  intros Hsep; induction ws as [|w ws IH]; intros Hall; simpl; [set_solver|].
  destruct ws as [|w' ws]; [apply Hall; set_solver|].
  rewrite !elem_of_app. intros [H|[H|H]]; [by eapply Hall; [left|] | done |].
  revert H. apply IH. intros w0 Hw0. apply Hall. by right.
Qed.

(** The string without its final newline, if any. *)
Lemma last_char_cases s :
  (s = [] ∧ last_char s = Err IndexError) ∨ (∃ c, last s = Some c ∧ last_char s = Ok c).
Proof. unfold last_char. destruct (last s) eqn:E; [right; eauto|left]. by rewrite <-last_None. Qed.

(** The pieces of [s.split(c)] but the last lie before the last
    character of [s]. *)
Lemma split_sep_init_sub c s w x :
  w ∈ take (length (split_sep c s) - 1) (split_sep c s) → x ∈ w → x ∈ drop_last s.
Proof.
  intros Hw Hx. pose proof (join_split_sep c s) as Hj.
  destruct (exists_last (split_sep_nonempty c s)) as (ws & wl & E).
  rewrite E in Hw, Hj. rewrite length_app, Nat.add_sub, take_app_length in Hw.
  rewrite join_app_single in Hj by (intros ->; set_solver).
  rewrite <-Hj, drop_last_app by done. apply elem_of_app. left. by apply (join_elem _ _ w).
Qed.

Lemma take_token_app s : let '(t, r) := take_token s in s = t ++ r.
Proof.
  induction s as [|x s IH]; simpl; [done|].
  destruct (is_space x); [done|]. destruct (take_token s) as [t r]. by rewrite IH.
Qed.

Lemma lstrip_suffix s : ∃ p, s = p ++ lstrip s.
Proof.
  induction s as [|x s [p Hp]]; simpl; [by exists []|].
  destruct (is_space x); [exists (x :: p); simpl; by f_equal|by exists []].
Qed.

Lemma lstrip_sub s x : x ∈ lstrip s → x ∈ s.
Proof. destruct (lstrip_suffix s) as [p Hp]. intros Hx. rewrite Hp. set_solver. Qed.

(** The pieces of [s.split(None, 1)] are made of characters of [s]. *)
Lemma split_ws1_sub s w x : w ∈ split_ws1 s → x ∈ w → x ∈ s.
Proof.
  unfold split_ws1. intros Hw Hx. apply lstrip_sub.
  destruct (lstrip s) as [|y s1]; [set_solver|].
  pose proof (take_token_app (y :: s1)) as Happ.
  destruct (take_token (y :: s1)) as [t r].
  assert (Hr : x ∈ lstrip r → x ∈ y :: s1) by (intros ?%lstrip_sub; rewrite Happ; set_solver).
  destruct (lstrip r) as [|z r'].
  - apply list_elem_of_singleton in Hw as ->. rewrite Happ. set_solver.
  - apply elem_of_cons in Hw as [->|Hw]; [rewrite Happ; set_solver|].
    apply list_elem_of_singleton in Hw as ->. by apply Hr.
Qed.

(** The first piece of [s.split(c)] lies before the last character of
    [s] when [s] holds [c]. *)
Lemma split_sep_head_sub c s x :
  (2 <= length (split_sep c s))%nat → x ∈ default [] (head (split_sep c s)) → x ∈ drop_last s.
Proof.
  intros Hlen Hx. apply (split_sep_init_sub c s (default [] (head (split_sep c s)))); [|done].
  destruct (split_sep c s) as [|w ws]; simpl in *; [lia|].
  replace (length ws - 0)%nat with (S (length ws - 1)) by lia. simpl. by left.
Qed.

Lemma ends_nl_app s t : t ≠ [] → ends_nl (s ++ t) = ends_nl t.
Proof.
  intros Ht. unfold ends_nl. rewrite last_app. destruct (last t) eqn:E; [done|].
  by apply last_None in E.
Qed.

Lemma elem_of_rev_iff s x : x ∈ rev s ↔ x ∈ s.
Proof. rewrite !list_elem_of_In. symmetry. apply in_rev. Qed.

Lemma rstrip_sub s x : x ∈ rstrip s → x ∈ s.
Proof. unfold rstrip. intros Hx%elem_of_rev_iff%lstrip_sub. by apply elem_of_rev_iff. Qed.

Lemma strip_sub s x : x ∈ strip s → x ∈ s.
Proof. unfold strip. intros Hx%rstrip_sub. by apply lstrip_sub. Qed.

(** [lower] maps only letters: a non-letter found in [s.lower()] is in
    [s]. *)
Lemma lower_char_nonletter x c :
  (nat_of_ascii c < 97 ∨ 122 < nat_of_ascii c)%nat → lower_char x = c → x = c.
Proof.
  unfold lower_char. intros Hc. case_match eqn:E; [|done].
  apply andb_true_iff in E as [E1%Nat.leb_le E2%Nat.leb_le]. intros <-.
  rewrite nat_ascii_embedding in Hc by lia. lia.
Qed.

Lemma lower_nonletter s c :
  (nat_of_ascii c < 97 ∨ 122 < nat_of_ascii c)%nat → c ∈ lower s → c ∈ s.
Proof.
  intros Hc (x & Hx & Hin)%list_elem_of_fmap.
  by rewrite <-(lower_char_nonletter x c Hc (eq_sym Hx)).
Qed.
End Laws.

#[export] Hint Resolve split_sep_nonempty : pyres.
#[export] Hint Rewrite lower_length : pyrw.

(** ** The first token of [split(None, 1)] *)

Definition spaces (s : str) : Prop := Forall (λ c, is_space c = true) s.

Lemma lstrip_spec s :
  ∃ a, s = a ++ lstrip s ∧ spaces a ∧
    match lstrip s with [] => True | c :: _ => is_space c = false end.
Proof.
  induction s as [|x s (a & Ha & Hsa & Hh)]; [exists []; split_and!; [done|constructor|done]|]. simpl.
  destruct (is_space x) eqn:Ex.
  - exists (x :: a). split; [simpl; f_equal; exact Ha|]. split; [by constructor|done].
  - exists []. split_and!; [done|constructor|done].
Qed.

(** [split(None, 1)] returns at most two pieces, the first one a
    non-empty token. *)
Lemma split_ws1_shape s t r : split_ws1 s = t :: r → t ≠ [] ∧ (length r <= 1)%nat.
Proof.
  unfold split_ws1. destruct (lstrip_spec s) as (_ & _ & _ & Hh).
  destruct (lstrip s) as [|c s'] eqn:E; [done|]. simpl. rewrite Hh.
  destruct (take_token s') as [t' r'] eqn:Et.
  destruct (lstrip r'); intros [= <- <-]; simpl; split; try done; lia.
Qed.

(** ** Which characters survive [strip], [lower], [split] and [join] *)

Lemma lstrip_keep s c : c ∈ s → is_space c = false → c ∈ lstrip s.
Proof.
  induction s as [|x s IH]; simpl; [set_solver|]. intros Hin Hc.
  destruct (is_space x) eqn:Ex; [|done].
  apply elem_of_cons in Hin as [->|Hin]; [congruence|]. by apply IH.
Qed.

Lemma strip_keep s c : c ∈ s → is_space c = false → c ∈ strip s.
Proof.
  intros Hin Hc. unfold strip, rstrip. apply elem_of_rev_iff, lstrip_keep; [|done].
  apply elem_of_rev_iff, lstrip_keep; done.
Qed.

Lemma lower_keep s c : c ∈ s → lower_char c = c → c ∈ lower s.
Proof. intros Hin Hc. unfold lower. rewrite <-Hc. by apply list_elem_of_fmap_2. Qed.

Lemma join_chars sep ws x : x ∈ join sep ws → x ∈ sep ∨ ∃ w, w ∈ ws ∧ x ∈ w.
Proof.
  induction ws as [|w ws IH]; simpl; [set_solver|].
  destruct ws as [|w' ws']; [set_solver|].
  rewrite !elem_of_app. intros [Hx|[Hx|Hx]]; [set_solver|by left|].
  destruct (IH Hx) as [?|(w0 & ? & ?)]; [by left|right; exists w0; set_solver].
Qed.

Lemma split_sep_sub c s w x : w ∈ split_sep c s → x ∈ w → x ∈ s.
Proof. intros Hw Hx. rewrite <-(join_split_sep c s). by apply (join_elem _ _ w). Qed.
