(* ===== verification/Digits.v ===== *)
(** * Decimal digit strings

    The decimal rendering of a non-negative integer ([zdigits], as
    Python's [str(int)] and the digit loop of the float formatter produce
    it) and the value of a digit string ([dval], as the float parser reads
    a run of digits), with the round trip between them and the bounds
    [10^(n-1) <= v < 10^n] for an [n]-digit rendering.  The rendering is
    a recursion with fuel; [zdigits] gives it the binary length of the
    number, which is at least its decimal length. *)

From S2P Require Import Prelude.

Open Scope Z_scope.

Definition digit_char (d : Z) : ascii := ascii_of_nat (48 + Z.to_nat d).

(** [c.isdigit()] for ASCII. *)
Definition is_digit (c : ascii) : bool :=
  let n := nat_of_ascii c in (48 <=? n)%nat && (n <=? 57)%nat.

Definition char_val (c : ascii) : Z := Z.of_nat (nat_of_ascii c) - 48.

(** The value of a string of digits, most significant first. *)
Definition dval (s : str) : Z := fold_left (λ a c, a * 10 + char_val c) s 0.

(** Digits of [n], prepended to [acc]; [fuel] bounds the number of
    divisions by ten. *)
Fixpoint zdigits_fuel (fuel : nat) (n : Z) (acc : str) : str :=
  match fuel with
  | O => digit_char n :: acc
  | S f =>
      if n <? 10 then digit_char n :: acc
      else zdigits_fuel f (n / 10) (digit_char (n mod 10) :: acc)
  end.

(** The decimal rendering of [n >= 0], without leading zeros. *)
Definition zdigits (n : Z) : str := zdigits_fuel (Pos.size_nat (Z.to_pos n)) n [].

(** ** Lemmas *)

Lemma char_val_digit_char d : 0 <= d < 10 → char_val (digit_char d) = d.
Proof.
  intros Hd. unfold char_val, digit_char.
  rewrite nat_ascii_embedding by lia. lia.
Qed.

Lemma is_digit_digit_char d : 0 <= d < 10 → is_digit (digit_char d) = true.
Proof.
  intros Hd. unfold is_digit, digit_char.
  rewrite nat_ascii_embedding by lia. apply andb_true_iff. split; apply Nat.leb_le; lia.
Qed.

Lemma fold_dval t a :
  fold_left (λ a c, a * 10 + char_val c) t a =
  a * 10 ^ Z.of_nat (length t) + fold_left (λ a c, a * 10 + char_val c) t 0.
Proof.
  revert a; induction t as [|c t IH]; intros a; simpl; [lia|].
  rewrite IH, (IH (0 * 10 + char_val c)), Nat2Z.inj_succ, Z.pow_succ_r by lia. ring.
Qed.

Lemma dval_app s t : dval (s ++ t) = dval s * 10 ^ Z.of_nat (length t) + dval t.
Proof. unfold dval. by rewrite fold_left_app, fold_dval. Qed.

Lemma dval_nil : dval [] = 0.
Proof. reflexivity. Qed.

Lemma dval_cons c t : dval (c :: t) = char_val c * 10 ^ Z.of_nat (length t) + dval t.
Proof. apply (dval_app [c] t). Qed.

Section Fuel.
(** What the rendering does with enough fuel: [n < 10 ^ S fuel]. *)
Lemma zdigits_fuel_spec fuel n acc :
  0 <= n < 10 ^ Z.of_nat (S fuel) →
  ∃ ds, zdigits_fuel fuel n acc = ds ++ acc ∧ ds ≠ [] ∧
    dval ds = n ∧ Forall (λ c, is_digit c = true) ds ∧
    (n = 0 ∨ 10 ^ Z.of_nat (length ds - 1) <= n) ∧ n < 10 ^ Z.of_nat (length ds).
Proof.
  revert n acc; induction fuel as [|f IH]; intros n acc Hn.
  - exists [digit_char n]. simpl in *.
    rewrite dval_cons, char_val_digit_char by lia. simpl.
    split_and!; [done|discriminate|cbn; lia|repeat constructor; apply is_digit_digit_char; lia|lia|lia].
  - simpl. destruct (Z.ltb_spec n 10) as [Hlt|Hge].
    + exists [digit_char n].
      rewrite dval_cons, char_val_digit_char by lia. simpl.
      split_and!; [done|discriminate|cbn; lia|repeat constructor; apply is_digit_digit_char; lia|lia|lia].
    + destruct (IH (n / 10) (digit_char (n mod 10) :: acc)) as (ds & Heq & Hne & Hv & Hd & Hlo & Hhi).
      { split; [apply Z.div_pos; lia|]. apply Z.div_lt_upper_bound; [lia|].
        rewrite Nat2Z.inj_succ, Z.pow_succ_r in Hn by lia. simpl in *. lia. }
      exists (ds ++ [digit_char (n mod 10)]). rewrite Heq, <-app_assoc. split; [done|].
      split; [by destruct ds|].
      rewrite dval_app, dval_cons, char_val_digit_char by (apply Z.mod_pos_bound; lia).
      rewrite Hv, length_app, Nat.add_sub, Nat2Z.inj_add. simpl Z.of_nat.
      rewrite Z.pow_add_r, Z.pow_1_r, Z.pow_0_r, dval_nil by lia.
      pose proof (Z.div_mod n 10 ltac:(lia)); pose proof (Z.mod_pos_bound n 10 ltac:(lia)).
      destruct ds as [|d0 ds']; [done|]. simpl length in *.
      replace (S (length ds') - 1)%nat with (length ds') in Hlo by lia.
      rewrite Nat2Z.inj_succ, Z.pow_succ_r in Hhi |- * by lia.
      split_and!; [lia| |right; lia|lia].
      apply Forall_app. split; [done|]. repeat constructor.
      apply is_digit_digit_char; lia.
Qed.
End Fuel.

Lemma size_nat_pow2 p : Z.pos p < 2 ^ Z.of_nat (Pos.size_nat p).
Proof.
  induction p as [p IH|p IH|]; simpl Pos.size_nat;
    rewrite ?Nat2Z.inj_succ, ?Z.pow_succ_r by lia; lia.
Qed.

(** The fuel [zdigits] gives is enough. *)
Lemma size_nat_bound p : Z.pos p < 10 ^ Z.of_nat (S (Pos.size_nat p)).
Proof.
  pose proof (size_nat_pow2 p).
  assert (2 ^ Z.of_nat (Pos.size_nat p) <= 10 ^ Z.of_nat (Pos.size_nat p))
    by (apply Z.pow_le_mono_l; lia).
  rewrite Nat2Z.inj_succ, Z.pow_succ_r by lia. lia.
Qed.

(** The rendering of [n > 0]: a non-empty string of digits whose value is
    [n], and whose length [k] satisfies [10^(k-1) <= n < 10^k]. *)
Lemma zdigits_spec n :
  0 < n →
  zdigits n ≠ [] ∧ dval (zdigits n) = n ∧ Forall (λ c, is_digit c = true) (zdigits n) ∧
  10 ^ Z.of_nat (length (zdigits n) - 1) <= n < 10 ^ Z.of_nat (length (zdigits n)).
Proof.
  intros Hn. unfold zdigits.
  destruct (zdigits_fuel_spec (Pos.size_nat (Z.to_pos n)) n [])
    as (ds & -> & Hne & Hv & Hd & Hlo & Hhi).
  { split; [lia|]. pose proof (size_nat_bound (Z.to_pos n)). rewrite Z2Pos.id in *; lia. }
  rewrite app_nil_r. repeat split; try done. destruct Hlo; [lia|done].
Qed.

(** The number of digits characterises the magnitude. *)
Lemma zdigits_length_iff n k :
  0 < n → (length (zdigits n) = S k ↔ 10 ^ Z.of_nat k <= n < 10 ^ Z.of_nat (S k)).
Proof.
  intros Hn. destruct (zdigits_spec n Hn) as (Hne & _ & _ & Hlo & Hhi).
  split.
  - intros Hl. rewrite Hl in Hlo, Hhi. simpl in Hlo. by rewrite Nat.sub_0_r in Hlo.
  - intros [Hk1 Hk2]. destruct (length (zdigits n)) as [|l] eqn:E; [by destruct (zdigits n)|].
    simpl in Hlo. rewrite Nat.sub_0_r in Hlo. f_equal.
    destruct (Nat.lt_trichotomy l k) as [Hl|[Hl|Hl]]; [|done|].
    + assert (10 ^ Z.of_nat (S l) <= 10 ^ Z.of_nat k) by (apply Z.pow_le_mono_r; lia). lia.
    + assert (10 ^ Z.of_nat (S k) <= 10 ^ Z.of_nat l) by (apply Z.pow_le_mono_r; lia). lia.
Qed.
