(* ===== verification/NumModel.v ===== *)
(** * The number interface of the rescaling engine

    [my_patch] touches numbers through five operations only: Python's
    [float(s)] on a token, the product [np.array(vals) * scalefactor] and
    the factor products [B_scale*R_scale], the quotient [B_scale/R_scale],
    the square [R_scale**2], and the formatter ["{: .15e}".format].  The
    class [NumModel] states them and the one law the engine's theorems
    need (a rendered number holds no newline); the engine in [Rescale] and
    [Patch] is proved against this interface, and [Binary64] implements
    it with IEEE-754 binary64 arithmetic. *)

From S2P Require Import Prelude.

Class NumModel := {
  num : Type;
  (** [float(s)]: [None] is the [ValueError] of an unparsable string. *)
  py_float : str → option num;
  (** The literal [1.0]. *)
  num_one : num;
  (** [x * y] on floats (Python's and numpy's, which agree). *)
  num_mul : num → num → num;
  (** [x / y], which raises [ZeroDivisionError] on a zero divisor. *)
  num_div : num → num → result num;
  (** [x ** 2], which raises [OverflowError] when a finite [x] overflows. *)
  num_sq : num → result num;
  (** ["{: .15e}".format(x)]. *)
  fmt_e15 : num → str;
  fmt_e15_no_nl : ∀ x, nl ∉ fmt_e15 x
}.

Arguments num : clear implicits.
Arguments num {_}.

(** [float(tok)] inside the engine: a failed parse is a [ValueError]
    naming the token. *)
Definition to_float `{NumModel} (tok : str) : result num :=
  match py_float tok with Some x => Ok x | None => Err (ValueError tok) end.
