(* ===== verification/Binary64.v ===== *)
(** * IEEE-754 binary64: Python's [float] as the engine uses it

    Numbers are the Standard Library's [spec_float] at precision 53 and
    maximal exponent 1024 (binary64), with round-to-nearest-even
    arithmetic ([SFmul], [SFdiv]).  On top of it:
    - [float_from_string]: CPython's [float(str)] ([PyFloat_FromString]): the underscore check of
      [_Py_string_to_number_with_underscores], whitespace stripping of
      [float_from_string_inner], the decimal grammar of [_Py_dg_strtod]
      (sign, digits, point, exponent) and the [inf]/[infinity]/[nan]
      words of [_Py_parse_inf_or_nan]; the decimal value [m * 10^e] is
      rounded to nearest-even exactly (through [binary_round] and
      [SFdiv_core_binary]), as David Gay's [strtod] does;
    - [f64_div] and [f64_sq]: Python's [/] (which raises
      [ZeroDivisionError]) and [**2] (which raises [OverflowError] when
      the result of a finite base overflows);
    - [format_e15]: ["{: .15e}".format]: sign or blank, 16 significant digits
      rounded half-to-even from the exact binary value, exponent with
      sign and at least two digits; [" inf"], ["-inf"], [" nan"] for the
      special values. *)

From S2P Require Import Prelude PyStr Digits NumModel.
From Stdlib Require Import SpecFloat.

Open Scope Z_scope.

Definition prec : Z := 53.
Definition emax : Z := 1024.

Abbreviation f64 := spec_float.

(** ** Arithmetic *)

Definition f64_mul (x y : f64) : f64 := SFmul prec emax x y.

(** Python's [float.__truediv__]: a zero divisor raises. *)
Definition f64_div (x y : f64) : result f64 :=
  match y with
  | S754_zero _ => Err ZeroDivisionError
  | _ => Ok (SFdiv prec emax x y)
  end.

(** Python's [float.__pow__] at exponent 2 ([float_pow]): the square of
    a zero or an infinity is positive, and the overflow of a finite base
    raises [OverflowError] (the [ERANGE] check); the libm [pow] is taken to
    round [x*x] correctly. *)
Definition f64_sq (x : f64) : result f64 :=
  match x with
  | S754_zero _ => Ok (S754_zero false)
  | S754_infinity _ => Ok (S754_infinity false)
  | S754_nan => Ok S754_nan
  | S754_finite _ _ _ =>
      match SFmul prec emax x x with
      | S754_infinity _ => Err OverflowError
      | r => Ok r
      end
  end.

(** [x*x] overflows a finite [x]. *)
Definition sq_overflows (x : f64) : Prop :=
  ∃ s m e s', x = S754_finite s m e ∧ SFmul prec emax x x = S754_infinity s'.

Lemma f64_div_Err x y e :
  f64_div x y = Err e ↔ (∃ s, y = S754_zero s) ∧ e = ZeroDivisionError.
Proof. destruct y; simpl; naive_solver. Qed.

Lemma f64_sq_Err x e : f64_sq x = Err e ↔ sq_overflows x ∧ e = OverflowError.
Proof.
  unfold sq_overflows, f64_sq. destruct x as [| | |s m ex]; [naive_solver..|].
  destruct (SFmul prec emax (S754_finite s m ex) (S754_finite s m ex)) eqn:E;
    split; try (intros; simplify_eq); try naive_solver.
  all: intros [(? & ? & ? & ? & [= <- <- <-] & H) ->]; congruence.
Qed.

(** ** Parsing: [float(s)] *)

Definition underscore : ascii := "_".

(** Underscores only between two digits ([prev] is the previous
    character). *)
Fixpoint underscores_ok (prev : option ascii) (s : str) : bool :=
  match s with
  | [] => negb (bool_decide (prev = Some underscore))
  | c :: s' =>
      (if decide (c = underscore)
       then match prev with Some p => is_digit p | None => false end
       else match prev with
            | Some p => if decide (p = underscore) then is_digit c else true
            | None => true
            end) && underscores_ok (Some c) s'
  end.

Definition sign_of (s : str) : bool * str :=
  match s with
  | "-"%char :: t => (true, t)
  | "+"%char :: t => (false, t)
  | _ => (false, s)
  end.

(** The longest prefix of digits and the rest. *)
Fixpoint span_digits (s : str) : str * str :=
  match s with
  | c :: s' => if is_digit c then let '(d, r) := span_digits s' in (c :: d, r) else ([], s)
  | [] => ([], [])
  end.

(** A complete decimal literal: its sign, its digits as an integer [m],
    and the exponent [e] of its value [m * 10^e]. *)
Definition parse_decimal (s : str) : option (bool * Z * Z) :=
  let '(neg, s1) := sign_of s in
  let '(ip, s2) := span_digits s1 in
  let '(fp, s3) :=
    match s2 with "."%char :: s2' => span_digits s2' | _ => ([], s2) end in
  let m := dval (ip ++ fp) in
  let e0 := - Z.of_nat (length fp) in
  match ip ++ fp with
  | [] => None
  | _ =>
      match s3 with
      | [] => Some (neg, m, e0)
      | c :: s4 =>
          if decide (c = "e"%char ∨ c = "E"%char) then
            let '(eneg, s5) := sign_of s4 in
            let '(ed, s6) := span_digits s5 in
            match ed, s6 with
            | _ :: _, [] => Some (neg, m, e0 + (if eneg then - dval ed else dval ed))
            | _, _ => None
            end
          else None
      end
  end.

(** [inf], [infinity] and [nan] in any case, with a sign. *)
Definition parse_special (s : str) : option f64 :=
  let '(neg, t) := sign_of s in
  let t' := lower t in
  if decide (t' = pystr "inf" ∨ t' = pystr "infinity") then Some (S754_infinity neg)
  else if decide (t' = pystr "nan") then Some S754_nan
  else None.

(** The binary64 nearest to [(-1)^neg * m * 10^e] (ties to even). *)
Definition round_decimal (neg : bool) (m e : Z) : f64 :=
  if m =? 0 then S754_zero neg
  else if 0 <=? e then binary_round prec emax neg (Z.to_pos (m * 10 ^ e)) 0
  else
    let '(q, e', loc) := SFdiv_core_binary prec emax m 0 (10 ^ (- e)) 0 in
    binary_round_aux prec emax neg q e' loc.

Definition float_from_string (s : str) : option f64 :=
  if underscores_ok None s then
    let t := strip (filter (λ c, c ≠ underscore) s) in
    match parse_decimal t with
    | Some (neg, m, e) => Some (round_decimal neg m e)
    | None => parse_special t
    end
  else None.

(** A Python float literal, as [float(s)] reads it. *)
Definition f64_lit (s : string) : f64 :=
  match float_from_string (pystr s) with Some x => x | None => S754_nan end.

(** ** Formatting: ["{: .15e}"] *)

Definition sign_char (s : bool) : ascii := if s then "-"%char else " "%char.

(** [floor (log10 (num / den))] for positive [num] and [den]. *)
Definition flog10 (num den : Z) : Z :=
  if den <=? num then Z.of_nat (length (zdigits (num / den))) - 1
  else - Z.of_nat (length (zdigits ((den - 1) / num))).

(** [n / d] rounded to nearest, ties to even. *)
Definition div_rne (n d : Z) : Z :=
  let q := n / d in
  match Z.compare (2 * (n mod d)) d with
  | Lt => q
  | Gt => q + 1
  | Eq => if Z.even q then q else q + 1
  end.

(** The 16 significant digits [q] and the decimal exponent [E] of
    [m * 2^e]: [q * 10^(E-15)] is the value rounded to 16 digits. *)
Definition dec16 (m e : Z) : Z * Z :=
  let num := if 0 <=? e then m * 2 ^ e else m in
  let den := if 0 <=? e then 1 else 2 ^ (- e) in
  let E := flog10 num den in
  let k := 15 - E in
  let q := if 0 <=? k then div_rne (num * 10 ^ k) den else div_rne num (den * 10 ^ (- k)) in
  if q =? 10 ^ 16 then (10 ^ 15, E + 1) else (q, E).

(** [e+05], [e-10], [e+308]: sign and at least two digits. *)
Definition exp_str (E : Z) : str :=
  "e"%char :: (if E <? 0 then "-"%char else "+"%char) ::
  match zdigits (Z.abs E) with [d] => "0"%char :: [d] | ds => ds end.

Definition render_e15 (q E : Z) : str :=
  match zdigits q with
  | d :: ds => d :: "."%char :: ds ++ exp_str E
  | [] => []
  end.

Definition format_e15 (x : f64) : str :=
  match x with
  | S754_zero s => sign_char s :: pystr "0.000000000000000e+00"
  | S754_infinity s => sign_char s :: pystr "inf"
  | S754_nan => pystr " nan"
  | S754_finite s m e => sign_char s :: (let '(q, E) := dec16 (Z.pos m) e in render_e15 q E)
  end.

(** ** The formatter's alphabet *)

Lemma digits_not_nl (ds : str) : Forall (λ c, is_digit c = true) ds → nl ∉ ds.
Proof.
  intros Hd Hin. rewrite Forall_forall in Hd. by specialize (Hd nl Hin).
Qed.

Lemma zdigits_not_nl n : nl ∉ zdigits n.
Proof.
  destruct (Z.lt_ge_cases 0 n) as [Hn|Hn].
  - apply digits_not_nl, zdigits_spec, Hn.
  - unfold zdigits. replace (Z.to_pos n) with 1%positive by (destruct n; simpl in *; lia).
    simpl. replace (n <? 10) with true by lia. unfold digit_char.
    replace (Z.to_nat n) with 0%nat by lia. vm_compute. set_solver.
Qed.

Lemma exp_str_not_nl E : nl ∉ exp_str E.
Proof.
  unfold exp_str. pose proof (zdigits_not_nl (Z.abs E)) as H.
  rewrite !elem_of_cons. intros [Hc|[Hc|Hin]]; [done|by destruct (E <? 0)|].
  destruct (zdigits (Z.abs E)) as [|d [|d' ds]]; try done.
  apply elem_of_cons in Hin as [Hin|Hin]; [done|]. by apply H.
Qed.

Lemma render_e15_not_nl q E : nl ∉ render_e15 q E.
Proof.
  unfold render_e15. pose proof (zdigits_not_nl q) as Hz.
  destruct (zdigits q) as [|d ds]; [set_solver|].
  rewrite !elem_of_cons, elem_of_app. intros [H|[H|[H|H]]]; try done.
  1,2: apply Hz; rewrite elem_of_cons; auto.
  by apply (exp_str_not_nl E).
Qed.

(** A rendered number never holds a newline. *)
Lemma fmt_e15_not_nl x : nl ∉ format_e15 x.
Proof.
  assert (Hs : ∀ s, sign_char s ≠ nl) by (intros []; done).
  destruct x as [s|s| |s m e]; simpl format_e15; rewrite ?elem_of_cons.
  1,2: intros [H|H]; [by apply (Hs s)|]; revert H; vm_compute; set_solver.
  - vm_compute. set_solver.
  - intros [H|H]; [by apply (Hs s)|]. destruct (dec16 (Z.pos m) e) as [q E].
    by apply (render_e15_not_nl q E).
Qed.

(** ** The instance *)

#[export] Instance binary64 : NumModel := {|
  num := f64;
  py_float := float_from_string;
  num_one := S754_finite false (2 ^ 52) (-52);
  num_mul := f64_mul;
  num_div := f64_div;
  num_sq := f64_sq;
  fmt_e15 := format_e15;
  fmt_e15_no_nl := fmt_e15_not_nl
|}.

(** ** Laws of the formatter *)

Section FormatLaws.

(** [flog10] is [floor (log10 (num / den))]. *)
Lemma flog10_spec num den :
  0 < num → 0 < den →
  (0 <= flog10 num den → den * 10 ^ flog10 num den <= num < den * 10 ^ (flog10 num den + 1)) ∧
  (flog10 num den < 0 → den <= num * 10 ^ (- flog10 num den) < 10 * den).
Proof.
  intros Hn Hd. unfold flog10. destruct (Z.leb_spec den num) as [Hle|Hlt].
  - assert (HQ : 1 <= num / den) by (apply Z.div_le_lower_bound; lia).
    destruct (zdigits_spec (num / den) ltac:(lia)) as (Hne & _ & _ & Hlo & Hhi).
    destruct (length (zdigits (num / den))) as [|L] eqn:EL; [by destruct (zdigits _)|].
    simpl in Hlo. rewrite Nat.sub_0_r in Hlo. rewrite Nat2Z.inj_succ in Hhi |- *.
    replace (Z.succ (Z.of_nat L) - 1) with (Z.of_nat L) by lia.
    replace (Z.of_nat L + 1) with (Z.succ (Z.of_nat L)) by lia.
    rewrite Z.pow_succ_r in Hhi |- * by lia. split; [|lia]. intros _.
    pose proof (Z.mul_div_le num den Hd). pose proof (Z.div_mod num den ltac:(lia)).
    pose proof (Z.mod_pos_bound num den Hd).
    split; [nia|]. assert (num / den + 1 <= 10 * 10 ^ Z.of_nat L) by lia. nia.
  - assert (HQ : 1 <= (den - 1) / num) by (apply Z.div_le_lower_bound; lia).
    destruct (zdigits_spec ((den - 1) / num) ltac:(lia)) as (Hne & _ & _ & Hlo & Hhi).
    destruct (length (zdigits ((den - 1) / num))) as [|L] eqn:EL; [by destruct (zdigits _)|].
    simpl in Hlo. rewrite Nat.sub_0_r in Hlo. rewrite Nat2Z.inj_succ in Hhi |- *.
    rewrite Z.opp_involutive. rewrite Z.pow_succ_r in Hhi |- * by lia.
    split; [lia|]. intros _.
    pose proof (Z.div_mod (den - 1) num ltac:(lia)). pose proof (Z.mod_pos_bound (den - 1) num Hn).
    split; [|nia]. assert ((den - 1) / num + 1 <= 10 * 10 ^ Z.of_nat L) by lia. nia.
Qed.

(** Rounding a quotient between [a] and [b] stays between them. *)
Lemma div_rne_bounds n d a b :
  0 < d → d * a <= n < d * b → a <= div_rne n d <= b.
Proof.
  intros Hd [Hlo Hhi]. unfold div_rne.
  assert (a <= n / d) by (apply Z.div_le_lower_bound; lia).
  assert (n / d < b) by (apply Z.div_lt_upper_bound; lia).
  destruct (Z.compare _ _); [destruct (Z.even _)|..]; lia.
Qed.

(** [n / d] rounded to nearest: within half a unit. *)
Lemma div_rne_nearest n d : 0 < d → Z.abs (2 * (div_rne n d * d - n)) <= d.
Proof.
  intros Hd. unfold div_rne. pose proof (Z.div_mod n d ltac:(lia)).
  pose proof (Z.mod_pos_bound n d Hd).
  destruct (Z.compare_spec (2 * (n mod d)) d); [destruct (Z.even _)|..]; lia.
Qed.

(** The scaled quotient [dec16] rounds lies between [10^15] and [10^16]. *)
Lemma dec16_scaled m e :
  0 < m →
  let num := if 0 <=? e then m * 2 ^ e else m in
  let den := if 0 <=? e then 1 else 2 ^ (- e) in
  let E := flog10 num den in
  let N := if 0 <=? 15 - E then num * 10 ^ (15 - E) else num in
  let D := if 0 <=? 15 - E then den else den * 10 ^ (- (15 - E)) in
  0 < D ∧ D * 10 ^ 15 <= N < D * 10 ^ 16.
Proof.
  intros Hm num den E N D.
  assert (Hnum : 0 < num) by (subst num; destruct (Z.leb_spec 0 e); [|lia]; apply Z.mul_pos_pos; [lia|apply Z.pow_pos_nonneg; lia]).
  assert (Hden : 0 < den) by (subst den; destruct (Z.leb_spec 0 e); [lia|apply Z.pow_pos_nonneg; lia]).
  destruct (flog10_spec num den Hnum Hden) as [Hpos Hneg]. fold E in Hpos, Hneg.
  subst N D. destruct (Z.leb_spec 0 (15 - E)) as [Hk|Hk].
  - split; [done|]. destruct (Z.le_gt_cases 0 E) as [HE|HE].
    + destruct (Hpos HE) as [H1 H2].
      assert (Hp15 : 10 ^ 15 = 10 ^ E * 10 ^ (15 - E)) by (rewrite <-Z.pow_add_r by lia; f_equal; lia).
      assert (Hp16 : 10 ^ 16 = 10 ^ (E + 1) * 10 ^ (15 - E)) by (rewrite <-Z.pow_add_r by lia; f_equal; lia).
      assert (0 < 10 ^ (15 - E)) by (apply Z.pow_pos_nonneg; lia).
      rewrite Hp15, Hp16. nia.
    + destruct (Hneg HE) as [H1 H2].
      assert (Hp : 10 ^ (15 - E) = 10 ^ (- E) * 10 ^ 15) by (rewrite <-Z.pow_add_r by lia; f_equal; lia).
      rewrite Hp. change (10 ^ 16) with (10 * 10 ^ 15). nia.
  - assert (HE : 0 <= E) by lia. destruct (Hpos HE) as [H1 H2].
    assert (0 < 10 ^ (- (15 - E))) by (apply Z.pow_pos_nonneg; lia).
    split; [nia|].
    assert (Hp15 : 10 ^ E = 10 ^ (- (15 - E)) * 10 ^ 15) by (rewrite <-Z.pow_add_r by lia; f_equal; lia).
    assert (Hp16 : 10 ^ (E + 1) = 10 ^ (- (15 - E)) * 10 ^ 16) by (rewrite <-Z.pow_add_r by lia; f_equal; lia).
    rewrite Hp15 in H1. rewrite Hp16 in H2. nia.
Qed.

(** The digits the formatter prints: always sixteen significant ones. *)
Lemma dec16_digits m e : 0 < m → 10 ^ 15 <= fst (dec16 m e) < 10 ^ 16.
Proof.
  intros Hm. pose proof (dec16_scaled m e Hm) as HS. revert HS. unfold dec16. cbv zeta.
  repeat case_match; intros [HD HB]; pose proof (div_rne_bounds _ _ _ _ HD HB);
    simpl; lia.
Qed.

Lemma exp_str_length E : -100 < E < 100 → length (exp_str E) = 4%nat.
Proof.
  intros HE. unfold exp_str. simpl.
  destruct (Z.eq_dec E 0) as [->|HE0]; [reflexivity|].
  destruct (Z.lt_ge_cases (Z.abs E) 10) as [H1|H1].
  - assert (Hl : length (zdigits (Z.abs E)) = 1%nat) by (apply zdigits_length_iff; simpl; lia).
    destruct (zdigits (Z.abs E)) as [|d [|d' ds]]; simpl in *; lia.
  - assert (Hl : length (zdigits (Z.abs E)) = 2%nat) by (apply zdigits_length_iff; simpl; lia).
    destruct (zdigits (Z.abs E)) as [|d [|d' [|d'' ds]]]; simpl in *; lia.
Qed.

End FormatLaws.

(** C31: A finite number is printed as a sign or blank, one digit, a point,
    fifteen digits and the exponent: 22 characters when the decimal
    exponent has two digits. *)
Theorem format_e15_width s m e :
  -100 < snd (dec16 (Z.pos m) e) < 100 → length (format_e15 (S754_finite s m e)) = 22%nat.
Proof.
  intros HE. simpl format_e15. pose proof (dec16_digits (Z.pos m) e ltac:(lia)) as Hq.
  destruct (dec16 (Z.pos m) e) as [q E]. simpl in *. unfold render_e15.
  assert (Hl : length (zdigits q) = 16%nat) by (apply zdigits_length_iff; simpl; lia).
  destruct (zdigits q) as [|d ds]; [done|]. simpl in *.
  rewrite length_app, exp_str_length by done. lia.
Qed.

Lemma format_e15_width_witness :
  -100 < snd (dec16 (Z.pos 7205759403792794) (-56)) < 100 ∧
  length (format_e15 (S754_finite false 7205759403792794 (-56))) = 22%nat.
Proof.
  assert (H : -100 < snd (dec16 (Z.pos 7205759403792794) (-56)) < 100) by (vm_compute; split; reflexivity).
  split; [exact H|exact (format_e15_width false 7205759403792794 (-56) H)].
Defined.

(** ** The alphabet of [float()]: a comma is never accepted *)

(** The characters a decimal literal may hold. *)
Definition num_char (c : ascii) : Prop := is_digit c = true ∨ c ∈ pystr "+-.eE".

Lemma sign_of_spec s : ∃ p, s = p ++ (sign_of s).2 ∧ Forall num_char p.
Proof.
  destruct s as [|c s]; [by exists []|].
  destruct c as [[] [] [] [] [] [] [] []]; try by exists [].
  all: eexists [_]; split; [reflexivity|repeat constructor; right; vm_compute; set_solver].
Qed.

Lemma span_digits_spec s :
  s = (span_digits s).1 ++ (span_digits s).2 ∧ Forall (λ c, is_digit c = true) (span_digits s).1.
Proof.
  induction s as [|c s [IH1 IH2]]; [done|]. simpl.
  destruct (is_digit c) eqn:Hc; [|done].
  destruct (span_digits s) as [d r]. simpl in *. split; [by f_equal|by constructor].
Qed.

Lemma fraction_spec s2 :
  let fr := match s2 with "."%char :: s2' => span_digits s2' | _ => ([], s2) end in
  ∃ p, s2 = p ++ fr.1 ++ fr.2 ∧ Forall num_char p ∧ Forall (λ c, is_digit c = true) fr.1.
Proof.
  destruct s2 as [|c s2']; [by exists []|].
  destruct (span_digits_spec s2') as [Hs Hd].
  destruct c as [[] [] [] [] [] [] [] []]; try by exists [].
  exists ["."%char]. split_and!; [simpl; by f_equal|repeat constructor; right; vm_compute; set_solver|done].
Qed.

Lemma digits_num_chars ds : Forall (λ c, is_digit c = true) ds → Forall num_char ds.
Proof. intros Hd. eapply Forall_impl; [exact Hd|]. intros c Hc. by left. Qed.

Lemma parse_decimal_chars s r : parse_decimal s = Some r → Forall num_char s.
Proof.
  unfold parse_decimal.
  destruct (sign_of_spec s) as (p0 & Hs0 & Hp0). destruct (sign_of s) as [neg s1]. simpl in *.
  destruct (span_digits_spec s1) as [Hs1 Hip]. destruct (span_digits s1) as [ip s2]. simpl in *.
  destruct (fraction_spec s2) as (p1 & Hs2 & Hp1 & Hfp).
  destruct (match s2 with "."%char :: s2' => span_digits s2' | _ => ([], s2) end) as [fp s3].
  simpl in *. subst s s1 s2.
  assert (Hpre : Forall num_char (p0 ++ ip ++ p1 ++ fp)).
  { repeat (apply Forall_app; split); auto using digits_num_chars. }
  rewrite <-?app_assoc in Hpre.
  destruct (ip ++ fp); [done|]. destruct s3 as [|c s4].
  { intros _. by rewrite app_nil_r. }
  case_decide as He; [|done].
  destruct (sign_of_spec s4) as (p2 & Hs4 & Hp2). destruct (sign_of s4) as [eneg s5]. simpl in *.
  destruct (span_digits_spec s5) as [Hs5 Hed]. destruct (span_digits s5) as [ed s6]. simpl in *.
  destruct ed as [|d ed']; [done|]. destruct s6; [|done]. intros _.
  rewrite !app_assoc. apply Forall_app. split; [by rewrite <-!app_assoc|].
  subst s4 s5. rewrite app_nil_r in *. constructor.
  - right. destruct He as [->| ->]; vm_compute; set_solver.
  - apply Forall_app. split; [done|]. by apply digits_num_chars.
Qed.

(** [float(s)] rejects every string that holds a comma. *)
Lemma float_from_string_comma s : ","%char ∈ s → float_from_string s = None.
Proof.
  intros Hc. unfold float_from_string. destruct (underscores_ok None s); [|done].
  set (t := strip _).
  assert (Ht : ","%char ∈ t).
  { apply strip_keep; [|reflexivity]. apply list_elem_of_filter. split; [done|]. done. }
  destruct (parse_decimal t) as [r|] eqn:Hp.
  { apply parse_decimal_chars in Hp. rewrite Forall_forall in Hp.
    destruct (Hp _ Ht) as [Hd|Hd]; vm_compute in Hd; [discriminate|set_solver]. }
  unfold parse_special. destruct (sign_of_spec t) as (p & Hsp & Hpp). destruct (sign_of t) as [neg t'].
  simpl in *. assert (Hc' : ","%char ∈ lower t').
  { apply lower_keep; [|reflexivity]. rewrite Hsp in Ht. apply elem_of_app in Ht as [Hin|]; [|done].
    rewrite Forall_forall in Hpp. destruct (Hpp _ Hin) as [Hd|Hd]; vm_compute in Hd; [discriminate|set_solver]. }
  repeat case_decide; try done; exfalso.
  - destruct H as [Hl|Hl]; rewrite Hl in Hc'; vm_compute in Hc'; set_solver.
  - rewrite H0 in Hc'. vm_compute in Hc'. set_solver.
Qed.
