(* ===== verification/Rounding.v ===== *)
(** * The formatter rounds correctly

    The value of the formatter's output, read as a rational number: the
    sixteen digits [q] and the exponent [E] that [Binary64.dec16] computes
    for a finite binary64 number [m * 2^e] stand for [q * 10^(E-15)]
    ([dec_value]), and the number for [m * 2^e] ([bin_value]).  The
    theorem [dec16_nearest] shows that ["{: .15e}"] prints the exact
    value rounded to sixteen significant digits, within half a unit of
    the last digit, carry into the exponent included.  Rationals are the
    Standard Library's [Q], with [field], [ring] and [lra]. *)

From Stdlib Require Import QArith Qabs Qpower Qfield Lqa.
From S2P Require Import Prelude Digits Binary64.

Open Scope Z_scope.

Definition bin_value (m e : Z) : Q := inject_Z m * inject_Z 2 ^ e.
Definition dec_value (q E : Z) : Q := inject_Z q * inject_Z 10 ^ (E - 15).

Lemma inject_Z_nz a : a ≠ 0 → ~ (inject_Z a == 0)%Q.
Proof. intros Ha H. unfold Qeq in H. simpl in H. lia. Qed.

Lemma Qpow_neg (a k : Z) : 0 <= k → (inject_Z a ^ (- k) == / inject_Z (a ^ k))%Q.
Proof. intros Hk. rewrite Qpower_opp, Zpower_Qpower by lia. reflexivity. Qed.

Lemma Qdiv_Z z d : 0 < d → (inject_Z z / inject_Z d == z # Z.to_pos d)%Q.
Proof. intros Hd. destruct d as [|p|p]; try lia. unfold Qeq, Qdiv, Qmult, Qinv. simpl. lia. Qed.

(** Rounding [n / d] to the nearest integer errs by at most a half. *)
Lemma div_rne_close n d : 0 < d → (Qabs (inject_Z (div_rne n d) - inject_Z n / inject_Z d) <= 1 # 2)%Q.
Proof.
  intros Hd. pose proof (div_rne_nearest n d Hd) as Hn.
  assert (Heq : (inject_Z (div_rne n d) - inject_Z n / inject_Z d ==
                 inject_Z (div_rne n d * d - n) / inject_Z d)%Q).
  { unfold Z.sub. rewrite inject_Z_plus, inject_Z_opp, inject_Z_mult. field. apply inject_Z_nz. lia. }
  rewrite Heq, Qdiv_Z by done. destruct d as [|p|p]; try lia.
  unfold Qle, Qabs. simpl. lia.
Qed.

Lemma pow_nz a k : 0 < a → 0 <= k → a ^ k ≠ 0.
Proof. intros. apply Z.neq_sym, Z.lt_neq, Z.pow_pos_nonneg; lia. Qed.

(** [m * 2^e] as the fraction [dec16] computes with. *)
Lemma bin_value_frac m e :
  (bin_value m e == inject_Z (if 0 <=? e then m * 2 ^ e else m) /
                    inject_Z (if 0 <=? e then 1 else 2 ^ (- e)))%Q.
Proof.
  unfold bin_value. destruct (Z.leb_spec 0 e).
  - rewrite inject_Z_mult, Zpower_Qpower by lia. field.
  - replace e with (- (- e)) at 1 by lia. rewrite Qpow_neg by lia.
    field. apply inject_Z_nz, pow_nz; lia.
Qed.

(** Scaling by [10^k] before the division and by [10^(E-15)] after it
    cancel out. *)
Lemma scaled_frac num den E N D :
  0 < den →
  N = (if 0 <=? 15 - E then num * 10 ^ (15 - E) else num) →
  D = (if 0 <=? 15 - E then den else den * 10 ^ (- (15 - E))) →
  (inject_Z N / inject_Z D * inject_Z 10 ^ (E - 15) == inject_Z num / inject_Z den)%Q.
Proof.
  intros Hden -> ->. destruct (Z.leb_spec 0 (15 - E)).
  - replace (E - 15) with (- (15 - E)) by lia. rewrite Qpow_neg, inject_Z_mult by lia.
    field. repeat split; apply inject_Z_nz; first [lia|apply pow_nz; lia].
  - replace (E - 15) with (- (15 - E)) by lia. rewrite <-Zpower_Qpower, inject_Z_mult by lia.
    field. repeat split; apply inject_Z_nz; first [lia|apply pow_nz; lia].
Qed.

Lemma Qpow10_pos z : (0 < inject_Z 10 ^ z)%Q.
Proof. apply Qpower_0_lt. reflexivity. Qed.

(** Before the carry [dec16] checks for: the rounded quotient [q] is
    within half a unit of the 16th digit of [m * 2^e]. *)
Lemma dec16_close_pre m e :
  0 < m →
  let num := if 0 <=? e then m * 2 ^ e else m in
  let den := if 0 <=? e then 1 else 2 ^ (- e) in
  let E := flog10 num den in
  let N := if 0 <=? 15 - E then num * 10 ^ (15 - E) else num in
  let D := if 0 <=? 15 - E then den else den * 10 ^ (- (15 - E)) in
  (Qabs (dec_value (div_rne N D) E - bin_value m e) <= (1 # 2) * inject_Z 10 ^ (E - 15))%Q.
Proof.
  intros Hm num den E N D.
  destruct (dec16_scaled m e Hm) as [HD _]. fold num den E N D in HD.
  assert (Hden : 0 < den) by (subst den; destruct (Z.leb_spec 0 e); [lia|apply Z.pow_pos_nonneg; lia]).
  assert (Hs := Qpow10_pos (E - 15)).
  assert (Hdiff : (dec_value (div_rne N D) E - bin_value m e ==
                   (inject_Z (div_rne N D) - inject_Z N / inject_Z D) * inject_Z 10 ^ (E - 15))%Q).
  { rewrite bin_value_frac.
    change (inject_Z (if 0 <=? e then m * 2 ^ e else m)) with (inject_Z num).
    change (inject_Z (if 0 <=? e then 1 else 2 ^ (- e))) with (inject_Z den).
    rewrite <-(scaled_frac num den E N D Hden eq_refl eq_refl).
    unfold dec_value. set (s := (inject_Z 10 ^ (E - 15))%Q). ring. }
  rewrite Hdiff, Qabs_Qmult, (Qabs_pos (inject_Z 10 ^ (E - 15))%Q) by (apply Qlt_le_weak, Hs).
  apply Qmult_le_compat_r; [by apply div_rne_close|by apply Qlt_le_weak].
Qed.

Lemma Qpow10_succ E : (inject_Z 10 ^ (E + 1 - 15) == inject_Z 10 ^ (E - 15) * 10)%Q.
Proof.
  replace (E + 1 - 15) with ((E - 15) + 1) by lia.
  rewrite Qpower_plus by (apply inject_Z_nz; lia). reflexivity.
Qed.

(** Carrying [10^16] into the exponent keeps the value. *)
Lemma dec_value_carry E : (dec_value (10 ^ 15) (E + 1) == dec_value (10 ^ 16) E)%Q.
Proof.
  unfold dec_value. rewrite Qpow10_succ.
  change (10 ^ 16) with (10 ^ 15 * 10). rewrite inject_Z_mult. ring.
Qed.

(** C15: the formatter's sixteen digits [q] and exponent [E] are
    [m * 2^e] rounded to sixteen significant digits: [q] has sixteen
    digits and [q * 10^(E-15)] is within half a unit of its last digit
    of the exact value. *)
Theorem dec16_nearest m e :
  0 < m →
  (10 ^ 15 <= fst (dec16 m e) < 10 ^ 16) ∧
  (Qabs (dec_value (fst (dec16 m e)) (snd (dec16 m e)) - bin_value m e) <=
     (1 # 2) * inject_Z 10 ^ (snd (dec16 m e) - 15))%Q.
Proof.
  intros Hm. split; [by apply dec16_digits|].
  pose proof (dec16_close_pre m e Hm) as Hc. revert Hc. unfold dec16. cbv zeta.
  set (E := flog10 _ _). destruct (0 <=? 15 - E); intros Hc;
  (match goal with |- context [Z.eqb ?a ?b] => destruct (Z.eqb_spec a b) as [Heq|Hne] end; cbn [fst snd]; [|done]);
  rewrite Heq in Hc; rewrite dec_value_carry, Qpow10_succ;
  (eapply Qle_trans; [exact Hc|]); pose proof (Qpow10_pos (E - 15)); lra.
Qed.

Lemma dec16_nearest_witness :
  0 < 7205759403792794 ∧
  (10 ^ 15 <= fst (dec16 7205759403792794 (-56)) < 10 ^ 16) ∧
  (Qabs (dec_value (fst (dec16 7205759403792794 (-56))) (snd (dec16 7205759403792794 (-56))) -
         bin_value 7205759403792794 (-56)) <=
     (1 # 2) * inject_Z 10 ^ (snd (dec16 7205759403792794 (-56)) - 15))%Q.
Proof. split; [lia|apply dec16_nearest; lia]. Defined.
