(* ===== verification/Reparse.v ===== *)
(** * Reading back what the formatter prints

    The program writes every rescaled number with ["{: .15e}"] and a user
    (or a second run of the program) reads it back with [float()].  This
    file shows that the parser [Binary64.float_from_string] reads the
    text [Binary64.format_e15] prints for a finite non-zero double as
    exactly the printed decimal: the sign, the sixteen digits [q] and the
    exponent [E] of [Binary64.dec16] give back [q * 10^(E-15)], which is
    then rounded to binary64 ([Binary64.round_decimal]).  Together with
    [Rounding.dec16_nearest] this is the decimal half of the round trip
    the specification states "within the rounding of the format".  The
    lemmas follow the rendered text character by character: the digits
    of the mantissa and of the padded exponent, the alphabet of the
    rendering (no underscore, no whitespace inside), and what [strip]
    leaves of the leading sign or blank. *)

From S2P Require Import Prelude PyStr Digits Binary64.
From Stdlib Require Import SpecFloat.

Open Scope Z_scope.

Definition digits (ds : str) : Prop := Forall (λ c, is_digit c = true) ds.

Lemma zdigits_0 : zdigits 0 = ["0"%char].
Proof. reflexivity. Qed.

Lemma zdigits_digits n : 0 <= n → zdigits n ≠ [] ∧ digits (zdigits n) ∧ dval (zdigits n) = n.
Proof.
  intros Hn. destruct (Z.eq_dec n 0) as [->|Hn0].
  - rewrite zdigits_0. split_and!; [done|repeat constructor|reflexivity].
  - destruct (zdigits_spec n ltac:(lia)) as (? & ? & ? & _). done.
Qed.

(** The digits of the exponent, padded to two. *)
Definition exp_digits (E : Z) : str :=
  match zdigits (Z.abs E) with [d] => "0"%char :: [d] | ds => ds end.

Lemma exp_str_eq E : exp_str E = "e"%char :: (if E <? 0 then "-"%char else "+"%char) :: exp_digits E.
Proof. reflexivity. Qed.

Lemma exp_digits_spec E : exp_digits E ≠ [] ∧ digits (exp_digits E) ∧ dval (exp_digits E) = Z.abs E.
Proof.
  unfold exp_digits. destruct (zdigits_digits (Z.abs E) ltac:(lia)) as (Hne & Hd & Hv).
  destruct (zdigits (Z.abs E)) as [|d [|d' ds]]; [done| |done].
  split_and!; [done|constructor; [reflexivity|done]|].
  rewrite dval_cons. simpl. rewrite <-Hv. reflexivity.
Qed.

Lemma span_digits_app ds r :
  digits ds → match r with c :: _ => is_digit c = false | [] => True end →
  span_digits (ds ++ r) = (ds, r).
Proof.
  intros Hd Hr. induction Hd as [|c ds Hc _ IH]; simpl.
  - destruct r as [|c r]; [done|]. simpl. by rewrite Hr.
  - by rewrite Hc, IH.
Qed.

Lemma sign_of_digit (d : ascii) (t : str) : is_digit d = true → sign_of (d :: t) = (false, d :: t).
Proof. intros Hd. destruct d as [[] [] [] [] [] [] [] []]; vm_compute in Hd |- *; congruence. Qed.

Lemma parse_decimal_render (neg : bool) (d : ascii) (ds : str) (E : Z) :
  digits (d :: ds) →
  parse_decimal ((if neg then ["-"%char] else []) ++ d :: "."%char :: ds ++ exp_str E) =
  Some (neg, dval (d :: ds), E - Z.of_nat (length ds)).
Proof.
  intros Hd. pose proof Hd as Hd'. apply Forall_cons in Hd' as [Hd0 Hds].
  destruct (exp_digits_spec E) as (Hne & Hed & Hev).
  unfold parse_decimal.
  assert (Hs : sign_of ((if neg then ["-"%char] else []) ++ d :: "."%char :: ds ++ exp_str E) =
               (neg, d :: "."%char :: ds ++ exp_str E)).
  { destruct neg; [reflexivity|by apply sign_of_digit]. }
  rewrite Hs. clear Hs.
  replace (span_digits (d :: "."%char :: ds ++ exp_str E)) with ([d], "."%char :: ds ++ exp_str E)
    by (symmetry; apply (span_digits_app [d]); [by repeat constructor|reflexivity]).
  rewrite span_digits_app by (done || reflexivity).
  rewrite exp_str_eq. cbn -[dval exp_digits].
  destruct (E <? 0) eqn:HE; cbn -[dval exp_digits];
    replace (span_digits (exp_digits E)) with (exp_digits E, @nil ascii)
      by (symmetry; rewrite <-(app_nil_r (exp_digits E)) at 1; by apply span_digits_app);
    destruct (exp_digits E) as [|c cs] eqn:Ec; try done;
    (rewrite decide_True by by left); rewrite Hev; do 2 f_equal; lia.
Qed.

Lemma digit_not_space c : is_digit c = true → is_space c = false.
Proof. destruct c as [[] [] [] [] [] [] [] []]; vm_compute; congruence. Qed.

Lemma rstrip_id t c : last t = Some c → is_space c = false → rstrip t = t.
Proof.
  intros Hl Hc. assert (Ht : t ≠ []) by (intros ->; done).
  destruct (exists_last Ht) as (t' & c' & ->). rewrite last_snoc in Hl. simplify_eq.
  unfold rstrip. rewrite rev_app_distr. simpl. rewrite Hc. simpl.
  by rewrite rev_involutive.
Qed.

Lemma underscores_ok_free prev s :
  underscore ∉ s → prev ≠ Some underscore → underscores_ok prev s = true.
Proof.
  revert prev; induction s as [|c s IH]; intros prev Hs Hp; simpl.
  - by rewrite bool_decide_eq_false_2.
  - rewrite decide_False by set_solver. rewrite IH by (set_solver || congruence).
    destruct prev as [p|]; [|done]. by rewrite decide_False by congruence.
Qed.

Lemma filter_underscore_free (s : str) : underscore ∉ s → filter (λ c, c ≠ underscore) s = s.
Proof.
  induction s as [|c s IH]; intros Hs; [done|].
  rewrite filter_cons_True by set_solver. f_equal. apply IH. set_solver.
Qed.

(** The characters of a rendered number. *)
Definition render_char (c : ascii) : Prop :=
  is_digit c = true ∨ c ∈ ["."%char; "e"%char; "+"%char; "-"%char].

Lemma digits_render_chars ds : digits ds → Forall render_char ds.
Proof. intros Hd. eapply Forall_impl; [exact Hd|]. intros c Hc. by left. Qed.

Lemma render_chars d ds E :
  digits (d :: ds) → Forall render_char (d :: "."%char :: ds ++ exp_str E).
Proof.
  intros Hd. apply Forall_cons in Hd as [Hd0 Hds].
  destruct (exp_digits_spec E) as (_ & Hed & _).
  rewrite exp_str_eq. constructor; [by left|]. constructor; [right; set_solver|].
  apply Forall_app. split; [by apply digits_render_chars|].
  constructor; [right; set_solver|]. constructor; [right; destruct (E <? 0); set_solver|].
  by apply digits_render_chars.
Qed.

Lemma render_char_not_underscore c : render_char c → c ≠ underscore.
Proof. intros [Hc|Hc] ->; [done|]. vm_compute in Hc. set_solver. Qed.

Lemma render_last d ds E : ∃ c, last (d :: "."%char :: ds ++ exp_str E) = Some c ∧ is_space c = false.
Proof.
  destruct (exp_digits_spec E) as (Hne & Hed & _). rewrite exp_str_eq.
  destruct (exists_last Hne) as (l & c & Hl). exists c.
  rewrite app_comm_cons, app_comm_cons, Hl, app_comm_cons, app_comm_cons, app_assoc, last_snoc.
  split; [done|]. apply digit_not_space. rewrite Hl in Hed.
  apply Forall_app in Hed as [_ Hc]. by inversion Hc.
Qed.

(** The sign or blank in front of a rendered number is what [strip]
    leaves of it. *)
Lemma strip_render s d ds E :
  is_digit d = true →
  strip (sign_char s :: d :: "."%char :: ds ++ exp_str E) =
  (if s then ["-"%char] else []) ++ d :: "."%char :: ds ++ exp_str E.
Proof.
  intros Hd. destruct (render_last d ds E) as (c & Hl & Hc). unfold strip.
  destruct s; simpl; rewrite ?(digit_not_space d Hd); simpl;
    (eapply rstrip_id; [|exact Hc]); [|exact Hl].
  rewrite last_cons_cons. exact Hl.
Qed.

(** C16: Reading back a printed number: [float] of the text ["{: .15e}"]
    prints for a finite non-zero double reads exactly the printed decimal
    [q * 10^(E-15)] with the double's sign, and rounds it to binary64. *)
Theorem format_e15_reparse s m e :
  float_from_string (format_e15 (S754_finite s m e)) =
  Some (round_decimal s (fst (dec16 (Z.pos m) e)) (snd (dec16 (Z.pos m) e) - 15)).
Proof.
  pose proof (dec16_digits (Z.pos m) e ltac:(lia)) as Hq.
  simpl format_e15. destruct (dec16 (Z.pos m) e) as [q E]. simpl in *.
  destruct (zdigits_spec q ltac:(lia)) as (Hne & Hv & Hd & _).
  assert (Hl : length (zdigits q) = 16%nat) by (apply zdigits_length_iff; simpl; lia).
  unfold render_e15. destruct (zdigits q) as [|d ds]; [done|].
  pose proof (render_chars d ds E Hd) as Hc.
  assert (Hu : underscore ∉ sign_char s :: d :: "."%char :: ds ++ exp_str E).
  { rewrite elem_of_cons. intros [Hs|Hin]; [by destruct s|].
    rewrite Forall_forall in Hc. by apply (render_char_not_underscore _ (Hc _ Hin)). }
  unfold float_from_string. rewrite underscores_ok_free by done.
  rewrite filter_underscore_free by done.
  apply Forall_cons in Hd as Hd'. rewrite strip_render by apply Hd'.
  rewrite parse_decimal_render by done. rewrite Hv. simpl in Hl.
  do 3 f_equal. lia.
Qed.

(** No printed number holds a carriage return. *)
Lemma format_e15_no_cr x : "013"%char ∉ format_e15 x.
Proof.
  destruct x as [s|s| |s m e]; simpl format_e15; rewrite ?elem_of_cons.
  1,2: intros [H|H]; [destruct s; vm_compute in H; discriminate|]; revert H; vm_compute; set_solver.
  - vm_compute. set_solver.
  - intros [H|H]; [destruct s; vm_compute in H; discriminate|].
    pose proof (dec16_digits (Z.pos m) e ltac:(lia)) as Hq.
    destruct (dec16 (Z.pos m) e) as [q E]. simpl in *.
    destruct (zdigits_spec q ltac:(lia)) as (_ & _ & Hd & _).
    unfold render_e15 in H. destruct (zdigits q) as [|d ds]; [set_solver|].
    pose proof (render_chars d ds E Hd) as Hc. rewrite Forall_forall in Hc.
    destruct (Hc _ H) as [Hx|Hx]; vm_compute in Hx; [discriminate|set_solver].
Qed.
