(* ===== verification/Rescale.v ===== *)
(** * The rescaling functions of [my_patch]

    [rescale_followup] (continuation lines), [rescale_multiarrayline]
    ([rbc(..) = v1, zbs(..) = v2, ...] lines) and [rescale_arrayline]
    ([key = v1 v2 ...] lines), local functions of [my_patch] in
    [src/scale_vmec.py].  Each splits the line, strips one trailing comma
    from a value token ([val[-1] == ","]), parses it with [float], scales
    all values with one numpy product, renders them with ["{: .15e}"],
    and re-appends the newline when the line ended with one.  Python's
    [IndexError] ([ssl[1]], [sl[1]], [l[-1]]) and [ValueError] ([float])
    are values of [result].  Everything is stated against the interface
    [NumModel]. *)

From S2P Require Import Prelude PyStr NumModel Binary64.

Section Rescale.
Context `{NumModel}.

(** [xs[i]], which raises [IndexError] out of range. *)
Definition nth_res {A} (xs : list A) (i : nat) : result A :=
  match xs !! i with Some a => Ok a | None => Err IndexError end.

(** [if val[-1] == ",": val = val[:-1]] followed by [float(val)]. *)
Definition parse_value (val : str) : result num :=
  c ← last_char val;
  to_float (if decide (c = ","%char) then drop_last val else val).

(** The loop [for val in vals: ... new_vals.append(float(val))]. *)
Definition parse_values (vals : list str) : result (list num) :=
  map_res parse_value vals.

(** [np.array(new_vals) * scalefactor]. *)
Definition scale_values (vs : list num) (sf : num) : list num :=
  map (λ v, num_mul v sf) vs.

(** [' '.join([formatter(val) for val in new_vals])]. *)
Definition render_values (vs : list num) : str :=
  join [" "%char] (map fmt_e15 vs).

(** [if l[-1] == '\n': new_line = new_line + '\n'] *)
Definition keep_nl (l new_line : str) : result str :=
  c ← last_char l;
  Ok (if decide (c = nl) then new_line ++ [nl] else new_line).

Definition rescale_followup (l : str) (sf : num) : result str :=
  new_vals ← parse_values (split_ws l);
  keep_nl l (render_values (scale_values new_vals sf)).

(** One inner piece [sl[i]] of a multi-array line: its value token and
    the key that follows it. *)
Definition multi_item (piece : str) : result (num * str) :=
  let ssl := split_ws1 piece in
  val ← nth_res ssl 0;
  v ← parse_value val;
  key ← nth_res ssl 1;
  Ok (v, key).

Definition eq_sep : str := pystr " = ".
Definition multi_sep : str := pystr ",      ".

Definition rescale_multiarrayline (l : str) (sf : num) : result str :=
  let sl := split_sep "="%char l in
  items ← map_res multi_item (drop 1 (take (length sl - 1) sl));
  vlast ← to_float (default [] (last sl));
  let keys := default [] (head sl) :: map snd items in
  let values := scale_values (map fst items ++ [vlast]) sf in
  keep_nl l (join multi_sep (zip_with (λ k v, k ++ eq_sep ++ fmt_e15 v) keys values)).

Definition rescale_arrayline (l : str) (sf : num) : result str :=
  let sl := split_sep "="%char l in
  let key := default [] (head sl) in
  rhs ← nth_res sl 1;
  new_vals ← parse_values (split_ws rhs);
  keep_nl l (key ++ eq_sep ++ render_values (scale_values new_vals sf)).
End Rescale.

(** ** Laws of the rescaling functions *)

Section RescaleLaws.
Context `{NumModel}.
Implicit Types (l s out : str) (sf : num).

(** [val] with one trailing comma removed, as the loops do it. *)
Definition strip_comma (val : str) : str :=
  if bool_decide (last val = Some ","%char) then drop_last val else val.

Lemma parse_value_nonempty val : val ≠ [] → parse_value val = to_float (strip_comma val).
Proof.
  intros Hv. unfold parse_value, strip_comma, last_char.
  destruct (last val) as [c|] eqn:E; [|by apply last_None in E].
  simpl. by case_decide; case_bool_decide; simplify_eq.
Qed.

Lemma keep_nl_Ok l s out :
  keep_nl l s = Ok out ↔ l ≠ [] ∧ out = if ends_nl l then s ++ [nl] else s.
Proof.
  unfold keep_nl, ends_nl.
  destruct (last_char_cases l) as [[-> ->]|(c & Hc & ->)]; simpl; [naive_solver|].
  rewrite Hc. assert (l ≠ []) by (intros ->; done).
  split; [intros [= <-]|intros [_ ->]]; repeat case_decide; case_bool_decide; naive_solver.
Qed.

(** The newline discipline of the epilogue [if l[-1] == '\n']. *)
Lemma keep_nl_newline l s out :
  nl ∉ s → keep_nl l s = Ok out → ends_nl out = ends_nl l ∧ nl ∉ drop_last out.
Proof.
  intros Hs [_ ->]%keep_nl_Ok. destruct (ends_nl l) eqn:E.
  - by rewrite ends_nl_snoc, drop_last_snoc.
  - split; [by apply ends_nl_free|by apply drop_last_free].
Qed.

Lemma render_values_free vs : nl ∉ render_values vs.
Proof.
  apply join_free; [set_solver|]. intros w (v & -> & _)%list_elem_of_fmap. apply fmt_e15_no_nl.
Qed.

Lemma parse_values_Ok vals vs :
  parse_values vals = Ok vs ↔ Forall2 (λ t v, parse_value t = Ok v) vals vs.
Proof. apply map_res_Ok_iff. Qed.

(** On the tokens of [split()], which are never empty, [parse_value] is
    [float] of the comma-stripped token. *)
Lemma parse_values_tokens s vs :
  parse_values (split_ws s) = Ok vs ↔
  Forall2 (λ t v, to_float (strip_comma t) = Ok v) (split_ws s) vs.
Proof.
  rewrite parse_values_Ok. apply Forall2_iff_in. intros t v Ht.
  by rewrite parse_value_nonempty by (apply (split_ws_tokens s t Ht)).
Qed.

(** C13: A continuation line: each blank-separated token is parsed (after
    dropping one trailing comma), multiplied by the factor and rendered;
    the tokens are joined by one blank; the newline is kept. *)
Lemma rescale_followup_Ok l sf out :
  rescale_followup l sf = Ok out ↔
  l ≠ [] ∧ ∃ vs, Forall2 (λ t v, to_float (strip_comma t) = Ok v) (split_ws l) vs ∧
    out = (if ends_nl l then render_values (scale_values vs sf) ++ [nl]
           else render_values (scale_values vs sf)).
Proof.
  unfold rescale_followup. rewrite bind_eq_Ok.
  setoid_rewrite parse_values_tokens. setoid_rewrite keep_nl_Ok.
  naive_solver.
Qed.

(** C14: A continuation line fails on the empty string ([l[-1]]) or with the
    [ValueError] of its first unparsable token. *)
Lemma rescale_followup_Err l sf e :
  rescale_followup l sf = Err e →
  (l = [] ∧ e = IndexError) ∨
  ∃ t, t ∈ split_ws l ∧ py_float (strip_comma t) = None ∧ e = ValueError (strip_comma t).
Proof.
  unfold rescale_followup. rewrite bind_eq_Err. intros [He|(vs & _ & He)].
  - right. destruct (map_res_Err _ _ _ He) as (t & Ht & Hp).
    exists t. rewrite parse_value_nonempty in Hp by apply (split_ws_tokens l t Ht).
    unfold to_float in Hp. destruct (py_float (strip_comma t)); naive_solver.
  - left. unfold keep_nl in He. destruct (last_char_cases l) as [[-> E]|(c & _ & E)];
      rewrite E in He; naive_solver.
Qed.
End RescaleLaws.

Section ArrayLaws.
Context `{NumModel}.
Implicit Types (l s out : str) (sf : num).

Lemma nth_res_Ok {A} (xs : list A) i a : nth_res xs i = Ok a ↔ xs !! i = Some a.
Proof. unfold nth_res. destruct (xs !! i); naive_solver. Qed.

(** C11: An array line [key = v1 v2 ...]: the text before the first [=] is
    kept as the key, the tokens between the first and the second [=]
    are parsed, scaled and rendered after [" = "]; the newline is
    kept. *)
Lemma rescale_arrayline_Ok l sf out :
  rescale_arrayline l sf = Ok out ↔
  l ≠ [] ∧ ∃ key rhs rest vs,
    split_sep "="%char l = key :: rhs :: rest ∧
    Forall2 (λ t v, to_float (strip_comma t) = Ok v) (split_ws rhs) vs ∧
    out = (if ends_nl l then key ++ eq_sep ++ render_values (scale_values vs sf) ++ [nl]
           else key ++ eq_sep ++ render_values (scale_values vs sf)).
Proof.
  unfold rescale_arrayline. rewrite bind_eq_Ok. setoid_rewrite bind_eq_Ok.
  setoid_rewrite nth_res_Ok. setoid_rewrite parse_values_tokens. setoid_rewrite keep_nl_Ok.
  pose proof (split_sep_nonempty "="%char l) as Hne.
  destruct (split_sep "="%char l) as [|key [|rhs rest]]; simpl; [done|naive_solver|].
  split.
  - intros (r & [= <-] & vs & Hvs & Hl & ->). split; [done|]. do 4 eexists.
    split; [done|]. split; [done|]. by destruct (ends_nl l); rewrite <-?app_assoc.
  - intros (Hl & k & r & rs & vs & [= <- <- <-] & Hvs & ->). eexists. split; [done|].
    eexists. split; [done|]. split; [done|]. by destruct (ends_nl l); rewrite <-?app_assoc.
Qed.
End ArrayLaws.

(** ** The newline of a rescaled assignment line *)

Section NewlineLaws.
Context `{NumModel}.
Implicit Types (l s out : str) (sf : num).

Lemma eq_sep_free : nl ∉ eq_sep.
Proof. vm_compute. set_solver. Qed.

Lemma multi_sep_free : nl ∉ multi_sep.
Proof. vm_compute. set_solver. Qed.

Lemma nth_res_length {A} (xs : list A) i a : nth_res xs i = Ok a → (i < length xs)%nat.
Proof. intros ?%nth_res_Ok. by eapply lookup_lt_Some. Qed.

(** The key of an inner piece of a multi-array line is taken from it. *)
Lemma multi_item_key piece v key x :
  multi_item piece = Ok (v, key) → x ∈ key → x ∈ piece.
Proof.
  unfold multi_item. rewrite bind_eq_Ok. setoid_rewrite bind_eq_Ok. setoid_rewrite bind_eq_Ok.
  intros (val & _ & v' & _ & k & Hk%nth_res_Ok & [= <- <-]) Hx.
  apply (split_ws1_sub piece k x); [by eapply list_elem_of_lookup_2|done].
Qed.

Lemma rescale_followup_newline l sf out :
  rescale_followup l sf = Ok out → ends_nl out = ends_nl l ∧ nl ∉ drop_last out.
Proof.
  unfold rescale_followup. rewrite bind_eq_Ok. intros (vs & _ & Hk). revert Hk.
  apply keep_nl_newline, render_values_free.
Qed.

Lemma rescale_arrayline_newline l sf out :
  nl ∉ drop_last l → rescale_arrayline l sf = Ok out →
  ends_nl out = ends_nl l ∧ nl ∉ drop_last out.
Proof.
  intros Hl. unfold rescale_arrayline. rewrite bind_eq_Ok. setoid_rewrite bind_eq_Ok.
  intros (rhs & Hrhs%nth_res_length & vs & _ & Hk). revert Hk. apply keep_nl_newline.
  rewrite !elem_of_app. intros [Hx|[Hx|Hx]].
  - by apply Hl, (split_sep_head_sub "="%char); [lia|].
  - by apply eq_sep_free.
  - by apply (render_values_free (scale_values vs sf)).
Qed.

Lemma split_sep_two c s : c ∈ s → (2 <= length (split_sep c s))%nat.
Proof.
  intros Hc. rewrite split_sep_length. destruct (filter (λ x, x = c) s) eqn:E; [|simpl; lia].
  exfalso. assert (Hin : c ∈ filter (λ x, x = c) s) by (by apply list_elem_of_filter).
  rewrite E in Hin. set_solver.
Qed.

Lemma rescale_multiarrayline_newline l sf out :
  "="%char ∈ l → nl ∉ drop_last l → rescale_multiarrayline l sf = Ok out →
  ends_nl out = ends_nl l ∧ nl ∉ drop_last out.
Proof.
  intros Heq Hl. unfold rescale_multiarrayline. rewrite bind_eq_Ok. setoid_rewrite bind_eq_Ok.
  intros (items & Hitems & vlast & _ & Hk). revert Hk. apply keep_nl_newline.
  pose proof (split_sep_two _ _ Heq) as Hlen.
  apply join_free; [apply multi_sep_free|].
  intros w (k & v & -> & Hkin & _)%elem_of_zip_with. rewrite !elem_of_app.
  intros [Hx|[Hx|Hx]]; [|by apply eq_sep_free|by apply (fmt_e15_no_nl v)].
  apply Hl. apply elem_of_cons in Hkin as [->|(it & -> & Hit)%list_elem_of_fmap].
  - by apply (split_sep_head_sub "="%char).
  - destruct it as [v' k']. destruct (map_res_Ok_elem _ _ _ _ Hitems Hit) as (piece & Hp & Hmi).
    apply (split_sep_init_sub "="%char l piece); [|by eapply multi_item_key].
    by apply elem_of_drop_sub in Hp.
Qed.
End NewlineLaws.

Section MultiLaws.
Context `{NumModel}.

(** One inner piece [sl[i]]: its first token, comma-stripped, is the
    value, and the rest of the piece the next key. *)
Lemma multi_item_Ok piece kv :
  multi_item piece = Ok kv ↔
  ∃ t, split_ws1 piece = [t; kv.2] ∧ to_float (strip_comma t) = Ok kv.1.
Proof.
  destruct kv as [v k]. unfold multi_item. simpl.
  destruct (split_ws1 piece) as [|t r] eqn:E; [split; [done|by intros (? & ? & _)]|].
  destruct (split_ws1_shape _ _ _ E) as [Ht Hr].
  destruct r as [|k' [|x r]]; simpl in Hr; try lia; simpl;
    rewrite parse_value_nonempty by done.
  - split; [by destruct (to_float _)|by intros (? & ? & _)].
  - destruct (to_float (strip_comma t)) eqn:Ev; simpl; split.
    + intros [= <- <-]. eauto.
    + intros (t0 & [= <- <-] & Hv). congruence.
    + done.
    + intros (t0 & [= <- <-] & Hv). congruence.
Qed.

(** C12: A multi-array line [k0 = v0 k1 = v1 ... = vn]: it succeeds
    exactly when it is not empty, every inner piece between two [=]
    splits into a value token and a key whose comma-stripped token
    parses, and the last piece parses as it is; the output pairs the
    text before the first [=] and the keys of the pieces, in order, with
    the values of the pieces and of the last piece, each scaled and
    rendered after [" = "], the pairs joined by [",      "], and keeps
    the newline. *)
Theorem rescale_multiarrayline_Ok l sf out :
  rescale_multiarrayline l sf = Ok out ↔
  l ≠ [] ∧
  ∃ items vlast,
    Forall2 (λ piece kv, ∃ t, split_ws1 piece = [t; kv.2] ∧ to_float (strip_comma t) = Ok kv.1)
      (drop 1 (take (length (split_sep "="%char l) - 1) (split_sep "="%char l))) items ∧
    to_float (default [] (last (split_sep "="%char l))) = Ok vlast ∧
    out = (let body := join multi_sep
                         (zip_with (λ k v, k ++ eq_sep ++ fmt_e15 v)
                            (default [] (head (split_sep "="%char l)) :: map snd items)
                            (scale_values (map fst items ++ [vlast]) sf)) in
           if ends_nl l then body ++ [nl] else body).
Proof.
  unfold rescale_multiarrayline. rewrite bind_eq_Ok. setoid_rewrite bind_eq_Ok.
  setoid_rewrite keep_nl_Ok. setoid_rewrite map_res_Ok_iff.
  assert (Hf : ∀ pieces (items : list (num * str)),
            Forall2 (λ p kv, multi_item p = Ok kv) pieces items ↔
            Forall2 (λ p kv, ∃ t, split_ws1 p = [t; kv.2] ∧ to_float (strip_comma t) = Ok kv.1)
              pieces items).
  { intros pieces items. apply Forall2_iff_in. intros p kv _. apply multi_item_Ok. }
  setoid_rewrite Hf. naive_solver.
Qed.
End MultiLaws.

(** ** Where the characters of a rescaled line come from *)

Section CharLaws.
Context `{NumModel}.

(** A character a rescaling function may write for the line [l]: one of
    [l], a blank, [=] or [,] of its separators, or one of a rendered
    number. *)
Definition rescaled_char (l : str) (c : ascii) : Prop :=
  c ∈ l ∨ c ∈ pystr " =," ∨ ∃ x, c ∈ fmt_e15 x.

Lemma head_split_sub c s x : x ∈ default [] (head (split_sep c s)) → x ∈ s.
Proof.
  destruct (split_sep c s) as [|w ws] eqn:E; simpl; [set_solver|].
  intros Hx. apply (split_sep_sub c s w); [rewrite E; left|done].
Qed.

Lemma render_values_chars l vs c : c ∈ render_values vs → rescaled_char l c.
Proof.
  unfold render_values. intros [Hc|(w & (v & -> & _)%list_elem_of_fmap & Hw)]%join_chars.
  - right; left. set_solver.
  - right; right. eauto.
Qed.

Lemma keep_nl_chars l s out c :
  (c ∈ s → rescaled_char l c) → keep_nl l s = Ok out → c ∈ out → rescaled_char l c.
Proof.
  intros Hs [_ ->]%keep_nl_Ok. destruct (ends_nl l) eqn:E; [|done].
  rewrite elem_of_app. intros [Hc| ->%list_elem_of_singleton]; [by apply Hs|].
  left. unfold ends_nl in E. apply bool_decide_eq_true in E. by apply last_Some_elem_of.
Qed.

Lemma eq_sep_chars l c : c ∈ eq_sep → rescaled_char l c.
Proof. intros Hc. right; left. revert Hc. vm_compute. set_solver. Qed.

Lemma rescale_followup_chars l sf out c :
  rescale_followup l sf = Ok out → c ∈ out → rescaled_char l c.
Proof.
  unfold rescale_followup. rewrite bind_eq_Ok. intros (vs & _ & Hk).
  apply (keep_nl_chars _ _ _ _ (render_values_chars l _ c) Hk).
Qed.

Lemma rescale_arrayline_chars l sf out c :
  rescale_arrayline l sf = Ok out → c ∈ out → rescaled_char l c.
Proof.
  unfold rescale_arrayline. rewrite bind_eq_Ok. setoid_rewrite bind_eq_Ok.
  intros (rhs & _ & vs & _ & Hk). revert Hk. apply keep_nl_chars.
  rewrite !elem_of_app. intros [Hc|[Hc|Hc]].
  - left. by apply (head_split_sub "="%char).
  - by apply eq_sep_chars.
  - by eapply render_values_chars.
Qed.

Lemma rescale_multiarrayline_chars l sf out c :
  rescale_multiarrayline l sf = Ok out → c ∈ out → rescaled_char l c.
Proof.
  unfold rescale_multiarrayline. rewrite bind_eq_Ok. setoid_rewrite bind_eq_Ok.
  intros (items & Hitems & vlast & _ & Hk). revert Hk. apply keep_nl_chars.
  intros [Hc|(w & Hw & Hc)]%join_chars.
  { right; left. revert Hc. vm_compute. set_solver. }
  apply elem_of_zip_with in Hw as (k & v & -> & Hkin & _).
  rewrite !elem_of_app in Hc. destruct Hc as [Hc|[Hc|Hc]].
  - left. apply elem_of_cons in Hkin as [->|(it & -> & Hit)%list_elem_of_fmap].
    + by apply (head_split_sub "="%char).
    + destruct it as [v' k']. destruct (map_res_Ok_elem _ _ _ _ Hitems Hit) as (piece & Hp & Hmi).
      apply (split_sep_sub "="%char l piece); [|by eapply multi_item_key].
      apply elem_of_drop_sub in Hp. by apply elem_of_take in Hp as (? & ?%list_elem_of_lookup_2 & ?).
  - by apply eq_sep_chars.
  - right; right. eauto.
Qed.
End CharLaws.

(** ** Concrete runs (binary64) *)

Lemma rescale_followup_Err_witness :
  rescale_followup (pyline "  1.0 x,") (f64_lit "2.0") = Err (ValueError (pystr "x")) ∧
  ((pyline "  1.0 x," = [] ∧ ValueError (pystr "x") = IndexError) ∨
   ∃ t, t ∈ split_ws (pyline "  1.0 x,") ∧ py_float (strip_comma t) = None ∧
        ValueError (pystr "x") = ValueError (strip_comma t)).
Proof.
  assert (H : rescale_followup (pyline "  1.0 x,") (f64_lit "2.0") = Err (ValueError (pystr "x")))
    by (vm_compute; reflexivity).
  split; [exact H|exact (rescale_followup_Err _ _ _ H)].
Defined.
