(* ===== verification/Patch.v ===== *)
(** * The line loop of [my_patch]

    [src/scale_vmec.py], lines 71-151: for every line of the file, split
    off the inline comment at the first [!], classify the stripped and
    lower-cased rest (empty, [&] group, [/] end, assignment, continuation),
    rescale it, and re-attach the comment after [" !"].  The loop keeps
    two variables across iterations, [scale] and [func]: the record
    [state].  [scale] is unbound until the first recognised assignment
    ([None]), so a continuation line before it raises
    [UnboundLocalError]; [func] is written and never read.

    The [if]/[elif] chain over the field prefixes is [classify], one
    constructor of [branch] per branch of the source in source order;
    [factor] is the scale factor each branch computes from [R_scale] and
    [B_scale], [branch_style] the function it calls. *)

From Stdlib Require Import SpecFloat.
From S2P Require Import Prelude PyStr NumModel Binary64 Rescale.

(** ** The dispatch chain *)

(** The branches of lines 95-140, in source order. *)
Inductive branch :=
  | Br_rbc      (** [rbc], [zbs], [rbs], [zbc] *)
  | Br_raxis
  | Br_raxis_cc
  | Br_zaxis
  | Br_zaxis_cc
  | Br_phiedge
  | Br_pres_scale
  | Br_curtor
  | Br_ac
  | Br_am
  | Br_none.    (** the final [else] *)

#[export] Instance branch_eq_dec : EqDecision branch.
Proof. solve_decision. Defined.

(** The function a branch stores in [func]. *)
Inductive style := Multi | Array | Unit.

#[export] Instance style_eq_dec : EqDecision style.
Proof. solve_decision. Defined.

(** [l[:n] == s]. *)
Definition slice_eq (l : str) (n : nat) (s : string) : bool :=
  bool_decide (take n l = pystr s).

Definition classify (l : str) : branch :=
  if slice_eq l 3 "rbc" || slice_eq l 3 "zbs" || slice_eq l 3 "rbs" || slice_eq l 3 "zbc"
  then Br_rbc
  else if slice_eq l 5 "raxis" then Br_raxis
  else if slice_eq l 8 "raxis_cc" then Br_raxis_cc
  else if slice_eq l 5 "zaxis" then Br_zaxis
  else if slice_eq l 8 "zaxis_cc" then Br_zaxis_cc
  else if slice_eq l 7 "phiedge" then Br_phiedge
  else if slice_eq l 10 "pres_scale" then Br_pres_scale
  else if slice_eq l 6 "curtor" then Br_curtor
  else if slice_eq l 2 "ac" then Br_ac
  else if slice_eq l 2 "am" then Br_am
  else Br_none.

Definition branch_style (b : branch) : style :=
  match b with
  | Br_rbc => Multi
  | Br_none => Unit
  | _ => Array
  end.

(** ** The loop state *)

(** The two variables the loop carries; [None] is "not yet bound". *)
Record state (A : Type) := mk_state { scale : option A; func : option style }.
Arguments mk_state {A} scale func.
Arguments scale {A} s.
Arguments func {A} s.

(** Before the loop neither variable is bound. *)
Definition init_state {A} : state A := mk_state None None.

Section Engine.
Context `{NumModel}.
Variables R_scale B_scale : num.

(** The factor each branch passes to its rescaling function and stores
    in [scale]: [R_scale], [B_scale*R_scale**2], [B_scale**2],
    [B_scale*R_scale], [B_scale/R_scale] or [1.0]. *)
Definition factor (b : branch) : result num :=
  match b with
  | Br_rbc | Br_raxis | Br_raxis_cc | Br_zaxis | Br_zaxis_cc => Ok R_scale
  | Br_phiedge => r2 ← num_sq R_scale; Ok (num_mul B_scale r2)
  | Br_pres_scale | Br_am => num_sq B_scale
  | Br_curtor => Ok (num_mul B_scale R_scale)
  | Br_ac => num_div B_scale R_scale
  | Br_none => Ok num_one
  end.

(** ** Classification of a stripped, lower-cased line *)

Inductive kind := K_empty | K_group | K_end | K_assign (b : branch) | K_cont.

Definition line_kind (l : str) : kind :=
  match l with
  | [] => K_empty
  | c :: _ =>
      if decide (c = "&"%char) then K_group
      else if decide (c = "/"%char) then K_end
      else if contains "="%char l then K_assign (classify l)
      else K_cont
  end.

(** ** One assignment line (lines 95-140) *)

Definition assign_line (b : branch) (line : str) : result (str * state num) :=
  match branch_style b with
  | Multi =>
      sf ← factor b; new_line ← rescale_multiarrayline line sf;
      sf' ← factor b; Ok (new_line, mk_state (Some sf') (Some Multi))
  | Array =>
      sf ← factor b; new_line ← rescale_arrayline line sf;
      sf' ← factor b; Ok (new_line, mk_state (Some sf') (Some Array))
  | Unit =>
      sf' ← factor b; Ok (line, mk_state (Some sf') (Some Unit))
  end.

(** ** One iteration of the loop (lines 75-150) *)

(** [ls = line.split("!", 1)]: [ls[0]] and the comment [ls[1]] (or
    [""]). *)
Definition line_part (raw : str) : str := default [] (head (split_sep1 "!"%char raw)).

Definition comment_part (raw : str) : str :=
  match split_sep1 "!"%char raw with _ :: c :: _ => c | _ => [] end.

Definition bang_sep : str := pystr " !".

(** [if len(comment) > 0: new_line = new_line + " !" + comment] *)
Definition attach (new_line comment : str) : str :=
  if bool_decide (comment = []) then new_line else new_line ++ bang_sep ++ comment.

(** The class of a raw line, as the loop computes it. *)
Definition raw_kind (raw : str) : kind := line_kind (lower (strip (line_part raw))).

(** The [if]/[elif] chain of lines 83-144 on the comment-free part
    [line] of a raw line. *)
Definition handle_line (st : state num) (line : str) : result (str * state num) :=
  let l := lower (strip line) in
  match line_kind l with
  | K_empty | K_group | K_end => Ok (line, st)
  | K_assign b => assign_line b line
  | K_cont =>
      match scale st with
      | None => Err (UnboundLocalError (pystr "scale"))
      | Some sf => new_line ← rescale_followup line sf; Ok (new_line, st)
      end
  end.

Definition patch_line (st : state num) (raw : str) : result (str * state num) :=
  let comment := comment_part raw in
  let line := line_part raw in
  '(new_line, st') ← handle_line st line;
  Ok (attach new_line comment, st').

(** ** The loop *)

Fixpoint patch_run (st : state num) (lines : list str) : result (list str * state num) :=
  match lines with
  | [] => Ok ([], st)
  | raw :: rest =>
      '(new_line, st') ← patch_line st raw;
      '(new_lines, st'') ← patch_run st' rest;
      Ok (new_line :: new_lines, st'')
  end.

(** [my_patch] on the lines [f.readlines()] returned. *)
Definition my_patch (lines : list str) : result (list str) :=
  '(new_lines, _) ← patch_run init_state lines;
  Ok new_lines.
End Engine.


(** ** Laws of the loop *)

Section LoopLaws.
Context `{NumModel}.
Variables R_scale B_scale : num.

Abbreviation patch_line := (patch_line R_scale B_scale).
Abbreviation patch_run := (patch_run R_scale B_scale).

Lemma patch_run_cons st raw rest o st'' :
  patch_run st (raw :: rest) = Ok (o, st'') ↔
  ∃ o1 st' o2, patch_line st raw = Ok (o1, st') ∧ patch_run st' rest = Ok (o2, st'') ∧ o = o1 :: o2.
Proof.
  simpl. destruct (patch_line st raw) as [[o1 st']|e]; simpl.
  - destruct (patch_run st' rest) as [[o2 s2]|e] eqn:E; simpl; split.
    + intros Heq. simplify_eq. eauto 10.
    + intros (? & ? & ? & Heq1 & Heq2 & ->). simplify_eq. congruence.
    + done.
    + intros (? & ? & ? & Heq1 & Heq2 & _). simplify_eq. congruence.
  - split; [done|]. intros (? & ? & ? & ? & _). congruence.
Qed.

(** The loop over a concatenation runs the second part from the state
    the first part leaves. *)
Lemma patch_run_app st l1 l2 o st'' :
  patch_run st (l1 ++ l2) = Ok (o, st'') ↔
  ∃ o1 o2 st', patch_run st l1 = Ok (o1, st') ∧ patch_run st' l2 = Ok (o2, st'') ∧ o = o1 ++ o2.
Proof.
  revert st o; induction l1 as [|raw l1 IH]; intros st o; simpl app.
  - simpl. naive_solver.
  - rewrite patch_run_cons. setoid_rewrite patch_run_cons. setoid_rewrite IH. naive_solver.
Qed.

Lemma patch_run_Err_app st l1 l2 e :
  patch_run st l1 = Err e → patch_run st (l1 ++ l2) = Err e.
Proof.
  revert st; induction l1 as [|raw l1 IH]; intros st; simpl; [done|].
  destruct (patch_line st raw) as [[o1 st']|e']; simpl; [|done].
  destruct (patch_run st' l1) as [[o2 s2]|e'] eqn:E; simpl; [done|].
  intros [= ->]. by rewrite IH.
Qed.

(** Each output line is the handler's output on its input line, in the
    state the loop reached there. *)
Lemma patch_run_Forall2 st lines o st' :
  patch_run st lines = Ok (o, st') →
  Forall2 (λ raw new, ∃ s1 s2, patch_line s1 raw = Ok (new, s2)) lines o.
Proof.
  revert st o; induction lines as [|raw rest IH]; intros st o.
  - simpl. intros [= <- _]. constructor.
  - rewrite patch_run_cons. intros (o1 & s1 & o2 & H1 & H2 & ->). constructor; [eauto|].
    by eapply IH.
Qed.

Lemma my_patch_Ok lines o : my_patch R_scale B_scale lines = Ok o ↔ ∃ st, patch_run init_state lines = Ok (o, st).
Proof.
  unfold my_patch. destruct (patch_run init_state lines) as [[o' st]|e]; simpl; naive_solver.
Qed.
End LoopLaws.

(** ** Laws of one iteration *)

Section LineLaws.
Context `{NumModel}.
Variables R_scale B_scale : num.

Abbreviation handle_line := (handle_line R_scale B_scale).
Abbreviation patch_line := (patch_line R_scale B_scale).
Abbreviation factor := (factor R_scale B_scale).

Lemma patch_line_Ok st raw o st' :
  patch_line st raw = Ok (o, st') ↔
  ∃ new_line, handle_line st (line_part raw) = Ok (new_line, st') ∧
              o = attach new_line (comment_part raw).
Proof.
  unfold patch_line. destruct (handle_line st (line_part raw)) as [[n s]|e]; simpl;
    split; intros; simplify_eq; naive_solver.
Qed.

(** A raw line is its comment-free part, then, when it holds a [!], the
    [!] and the comment. *)
Lemma raw_split raw :
  ("!"%char ∉ raw ∧ line_part raw = raw ∧ comment_part raw = []) ∨
  (∃ a c, raw = a ++ "!"%char :: c ∧ "!"%char ∉ a ∧ line_part raw = a ∧ comment_part raw = c).
Proof.
  unfold line_part, comment_part.
  destruct (split_sep1_spec "!"%char raw) as [[Hn Hs]|(a & c & Hr & Ha & Hs)]; rewrite Hs.
  - by left.
  - right. exists a, c. done.
Qed.

(** The state a handled line leaves: an assignment binds [scale] to its
    factor; every other line keeps the state. *)
Lemma handle_line_state st line new st' :
  handle_line st line = Ok (new, st') →
  match line_kind (lower (strip line)) with
  | K_assign b => ∃ sf, factor b = Ok sf ∧ st' = mk_state (Some sf) (Some (branch_style b))
  | _ => st' = st
  end.
Proof.
  unfold handle_line. destruct (line_kind _) as [| | |b|]; try (intros ?; by simplify_eq).
  - unfold assign_line. destruct (branch_style b);
      destruct (factor b) as [sf|e]; simpl; try done;
      intros ?; res_inv; eauto.
  - destruct (scale st); [|done]. intros ?; by res_inv.
Qed.

(** Lines that are empty, group markers, group ends or unrecognised
    assignments come out unchanged. *)
Lemma handle_line_passthrough st line new st' :
  handle_line st line = Ok (new, st') →
  line_kind (lower (strip line)) ∈ [K_empty; K_group; K_end; K_assign Br_none] →
  new = line.
Proof.
  unfold handle_line. destruct (line_kind _) as [| | |b|]; try (intros ?; by simplify_eq);
    rewrite !elem_of_cons; intros Hh Hk; [|destruct Hk as [?|[?|[?|[?|?%elem_of_nil]]]]; done].
  destruct Hk as [?|[?|[?|[Hb|?%elem_of_nil]]]]; try done. simplify_eq.
  revert Hh. unfold assign_line. simpl. intros ?; by simplify_eq.
Qed.
End LineLaws.

Section LineNewline.
Context `{NumModel}.
Variables R_scale B_scale : num.

Abbreviation handle_line := (handle_line R_scale B_scale).

Lemma contains_eq_line line : contains "="%char (lower (strip line)) = true → "="%char ∈ line.
Proof.
  unfold contains. rewrite bool_decide_eq_true. intros Hin.
  apply strip_sub, (lower_nonletter _ "="%char); [|done]. vm_compute. lia.
Qed.

(** A handled line keeps its newline, and holds no other. *)
Lemma handle_line_newline st line new st' :
  nl ∉ drop_last line → handle_line st line = Ok (new, st') →
  ends_nl new = ends_nl line ∧ nl ∉ drop_last new.
Proof.
  intros Hl Hh.
  assert (Hpass : new = line → ends_nl new = ends_nl line ∧ nl ∉ drop_last new) by (by intros ->).
  revert Hh. unfold handle_line. destruct (line_kind _) as [| | |b|] eqn:Ek;
    try (intros ?; simplify_eq; by apply Hpass).
  - unfold assign_line. assert (Heq : "="%char ∈ line).
    { apply contains_eq_line. revert Ek. unfold line_kind.
      destruct (lower (strip line)) as [|c l]; [done|]. repeat case_decide; try done.
      destruct (contains _ _); done. }
    destruct (branch_style b); intros ?; res_inv.
    + by eapply rescale_multiarrayline_newline.
    + by eapply rescale_arrayline_newline.
    + by apply Hpass.
  - destruct (scale st); [|done]. intros ?; res_inv. by eapply rescale_followup_newline.
Qed.

(** Re-attaching the comment keeps the newline discipline of the raw
    line. *)
Lemma attach_newline raw new :
  nl ∉ drop_last raw →
  (nl ∉ drop_last (line_part raw) →
     ends_nl new = ends_nl (line_part raw) ∧ nl ∉ drop_last new) →
  ends_nl (attach new (comment_part raw)) = ends_nl raw ∧
  nl ∉ drop_last (attach new (comment_part raw)).
Proof.
  intros Hraw Hnew. unfold attach.
  destruct (raw_split raw) as [(_ & Hl & Hcm)|(a & c & -> & _ & Hl & Hcm)];
    rewrite Hl in Hnew; rewrite Hcm.
  { rewrite bool_decide_eq_true_2 by done. by apply Hnew. }
  assert (Ha : nl ∉ a).
  { intros Hin. apply Hraw. rewrite drop_last_app by done. set_solver. }
  destruct (Hnew (drop_last_free a nl Ha)) as [Hen Hdn].
  rewrite (ends_nl_free a Ha) in Hen.
  assert (Hn : nl ∉ new).
  { intros Hin. apply Hdn. unfold ends_nl in Hen. apply bool_decide_eq_false in Hen.
    destruct (exists_last (A:=ascii) (l:=new) ltac:(set_solver)) as (n0 & x & ->).
    rewrite drop_last_snoc. rewrite last_snoc in Hen. apply elem_of_app in Hin as [?|?%list_elem_of_singleton]; [done|congruence]. }
  case_bool_decide as Hc.
  - subst c. split; [rewrite ends_nl_app by done; by rewrite Hen|by apply drop_last_free].
  - split.
    { rewrite (ends_nl_app new), (ends_nl_app bang_sep), (ends_nl_app a) by done.
      exact (eq_sym (ends_nl_app ["!"%char] c Hc)). }
    rewrite (drop_last_app new), (drop_last_app bang_sep) by done.
    change ("!"%char :: c) with (["!"%char] ++ c) in Hraw.
    rewrite (drop_last_app a), (drop_last_app ["!"%char] c) in Hraw by done.
    rewrite !elem_of_app. intros [?|[Hb|?]]; [done| |set_solver].
    revert Hb. vm_compute. set_solver.
Qed.
End LineNewline.

Section LineChars.
Context `{NumModel}.
Variables R_scale B_scale : num.

Abbreviation handle_line := (handle_line R_scale B_scale).
Abbreviation patch_line := (patch_line R_scale B_scale).

(** A handled line holds only characters of the line, of the
    separators, and of rendered numbers. *)
Lemma handle_line_chars st line new st' c :
  handle_line st line = Ok (new, st') → c ∈ new → rescaled_char line c.
Proof.
  unfold handle_line, Patch.handle_line. destruct (line_kind _) as [| | |b|];
    try (intros ?; simplify_eq; intros Hc; by left).
  - unfold assign_line. destruct (branch_style b); intros ?; res_inv.
    + by eapply rescale_multiarrayline_chars.
    + by eapply rescale_arrayline_chars.
    + intros Hc. by left.
  - destruct (scale st); [|done]. intros ?; res_inv. by eapply rescale_followup_chars.
Qed.

Lemma patch_line_chars st raw o st' c :
  patch_line st raw = Ok (o, st') → c ∈ o →
  c ∈ raw ∨ c ∈ pystr " =,!" ∨ ∃ x, c ∈ fmt_e15 x.
Proof.
  intros (new & Hh & ->)%patch_line_Ok.
  assert (Hnew : c ∈ new → c ∈ raw ∨ c ∈ pystr " =,!" ∨ ∃ x, c ∈ fmt_e15 x).
  { intros Hc. destruct (handle_line_chars _ _ _ _ _ Hh Hc) as [Hl|[Hs|Hf]]; [left|right; left|by right; right].
    - destruct (raw_split raw) as [(_ & Hlp & _)|(a & cm & Hr & _ & Hlp & _)];
        rewrite Hlp in Hl; [done|subst raw; set_solver].
    - revert Hs. vm_compute. set_solver. }
  unfold attach. case_bool_decide; [done|].
  rewrite !elem_of_app. intros [Hc|[Hc|Hc]]; [by apply Hnew| |].
  - right; left. revert Hc. vm_compute. set_solver.
  - left. destruct (raw_split raw) as [(_ & _ & Hcp)|(a & cm & Hr & _ & _ & Hcp)];
      rewrite Hcp in Hc; [set_solver|subst raw; set_solver].
Qed.
End LineChars.

(** ** The loop state: [scale] is the factor of the last assignment *)

(** The branch of the last assignment line of [lines], if any: the
    declarative account of what [scale] holds. *)
Fixpoint last_assign (lines : list str) : option branch :=
  match lines with
  | [] => None
  | raw :: rest =>
      match last_assign rest with
      | Some b => Some b
      | None => match raw_kind raw with K_assign b => Some b | _ => None end
      end
  end.

Section StateLaws.
Context `{NumModel}.
Variables R_scale B_scale : num.

Abbreviation patch_line := (patch_line R_scale B_scale).
Abbreviation patch_run := (patch_run R_scale B_scale).
Abbreviation factor := (factor R_scale B_scale).

Lemma split_sep1_bang a c :
  "!"%char ∉ a → split_sep1 "!"%char (a ++ "!"%char :: c) = [a; c].
Proof.
  induction a as [|x a IH]; intros Ha; simpl; [done|].
  case_decide; [set_solver|]. rewrite IH by set_solver. done.
Qed.

Lemma line_part_bang a c : "!"%char ∉ a → line_part (a ++ "!"%char :: c) = a.
Proof. intros Ha. unfold line_part. by rewrite split_sep1_bang. Qed.

Lemma comment_part_bang a c : "!"%char ∉ a → comment_part (a ++ "!"%char :: c) = c.
Proof. intros Ha. unfold comment_part. by rewrite split_sep1_bang. Qed.

Lemma patch_line_state st raw o st' :
  patch_line st raw = Ok (o, st') →
  match raw_kind raw with
  | K_assign b => ∃ sf, factor b = Ok sf ∧ scale st' = Some sf
  | _ => st' = st
  end.
Proof.
  intros (new & Hh & _)%patch_line_Ok. apply handle_line_state in Hh.
  unfold raw_kind. destruct (line_kind _); try done.
  destruct Hh as (sf & ? & ->). eauto.
Qed.

Lemma patch_run_scale st lines o st' :
  patch_run st lines = Ok (o, st') →
  match last_assign lines with
  | None => st' = st
  | Some b => ∃ sf, factor b = Ok sf ∧ scale st' = Some sf
  end.
Proof.
  revert st o; induction lines as [|raw rest IH]; intros st o.
  - simpl. intros ?; by simplify_eq.
  - rewrite patch_run_cons. intros (o1 & s1 & o2 & H1 & H2 & ->).
    specialize (IH _ _ H2). apply patch_line_state in H1. simpl.
    destruct (last_assign rest) as [b|]; [done|]. subst st'.
    destruct (raw_kind raw); done.
Qed.

(** The loop over [l1 ++ l2] is the loop over [l1] followed by the loop
    over [l2] from the state it leaves, or the error of [l1]. *)
Lemma patch_run_app_eq st l1 l2 :
  patch_run st (l1 ++ l2) =
  match patch_run st l1 with
  | Ok (o1, s1) => '(o2, s2) ← patch_run s1 l2; Ok (o1 ++ o2, s2)
  | Err e => Err e
  end.
Proof.
  revert st; induction l1 as [|raw l1 IH]; intros st; simpl.
  - by destruct (patch_run st l2) as [[]|].
  - destruct (patch_line st raw) as [[o1 s1]|e]; simpl; [|done]. rewrite IH.
    destruct (patch_run s1 l1) as [[o s]|e]; simpl; [|done].
    by destruct (patch_run s l2) as [[]|].
Qed.
End StateLaws.

(** ** What the engine guarantees *)

Section EngineTheorems.
Context `{NumModel}.
Variables R_scale B_scale : num.

Abbreviation handle_line := (handle_line R_scale B_scale).
Abbreviation patch_line := (patch_line R_scale B_scale).
Abbreviation patch_run := (patch_run R_scale B_scale).
Abbreviation factor := (factor R_scale B_scale).
Abbreviation my_patch := (my_patch R_scale B_scale).

(** One iteration keeps the newline discipline of its raw line. *)
Lemma patch_line_newline st raw o st' :
  patch_line st raw = Ok (o, st') →
  nl ∉ drop_last raw → ends_nl o = ends_nl raw ∧ nl ∉ drop_last o.
Proof.
  intros (new & Hh & ->)%patch_line_Ok Hraw.
  apply attach_newline; [done|]. intros Hl. by eapply handle_line_newline.
Qed.

Lemma patch_run_length st lines o st' :
  patch_run st lines = Ok (o, st') → length o = length lines.
Proof. intros Hr. symmetry. by eapply Forall2_length, patch_run_Forall2. Qed.

(** A property of every (input line, output line) pair that one
    iteration guarantees in any state holds of the whole pass. *)
Lemma my_patch_pairs (P : str → str → Prop) lines out :
  (∀ st raw o st', patch_line st raw = Ok (o, st') → P raw o) →
  my_patch lines = Ok out → Forall2 P lines out.
Proof.
  intros HP (st & Hr)%my_patch_Ok. eapply Forall2_impl; [by eapply patch_run_Forall2|].
  intros raw o (s1 & s2 & Hl). by eapply HP.
Qed.

(** The pass up to a line, the line, and the rest. *)
Lemma my_patch_split pre raw post out :
  my_patch (pre ++ raw :: post) = Ok out →
  ∃ o1 s1 o s2 o3 s3, patch_run init_state pre = Ok (o1, s1) ∧
    patch_line s1 raw = Ok (o, s2) ∧ patch_run s2 post = Ok (o3, s3) ∧
    out = o1 ++ o :: o3.
Proof.
  intros (st & Hr)%my_patch_Ok. rewrite patch_run_app_eq in Hr.
  destruct (patch_run init_state pre) as [[o1 s1]|e] eqn:Hpre; [|done].
  res_inv. apply patch_run_cons in Hx as (o & s2 & o3 & Hl & Hp & ->). eauto 10.
Qed.

(** C4: A successful pass returns one output line per input line. *)
Theorem my_patch_length lines out :
  my_patch lines = Ok out → length out = length lines.
Proof. intros (st & Hr)%my_patch_Ok. by eapply patch_run_length. Qed.

(** C3: An output line ends with a newline exactly when its input line does,
    and holds no other newline when its input line holds none. *)
Theorem my_patch_newline lines out :
  my_patch lines = Ok out →
  Forall2 (λ raw o, nl ∉ drop_last raw → ends_nl o = ends_nl raw ∧ nl ∉ drop_last o) lines out.
Proof. apply my_patch_pairs, patch_line_newline. Qed.

(** C5: The text after the first [!] of a line, when not empty, ends the
    output line verbatim after [" !"]. *)
Theorem my_patch_comment lines out :
  my_patch lines = Ok out →
  Forall2 (λ raw o, ∀ a c, raw = a ++ "!"%char :: c → "!"%char ∉ a → c ≠ [] →
                     ∃ body, o = body ++ bang_sep ++ c) lines out.
Proof.
  apply my_patch_pairs. intros st raw o st' (new & _ & ->)%patch_line_Ok a c -> Ha Hc.
  rewrite comment_part_bang by done. exists new. unfold attach.
  by rewrite bool_decide_eq_false_2.
Qed.

(** C6: Empty lines, group markers, group ends and unrecognised fields are
    passed through: unchanged without a comment, re-joined with [" !"]
    with one. *)
Theorem my_patch_passthrough lines out :
  my_patch lines = Ok out →
  Forall2 (λ raw o, raw_kind raw ∈ [K_empty; K_group; K_end; K_assign Br_none] →
             ("!"%char ∉ raw → o = raw) ∧
             (∀ a c, raw = a ++ "!"%char :: c → "!"%char ∉ a → c ≠ [] → o = a ++ bang_sep ++ c))
    lines out.
Proof.
  apply my_patch_pairs. intros st raw o st' (new & Hh & ->)%patch_line_Ok Hk.
  rewrite (handle_line_passthrough _ _ _ _ _ _ Hh Hk). split.
  - intros Hn. destruct (raw_split raw) as [(_ & -> & ->)|(a & c & -> & _)]; [done|set_solver].
  - intros a c -> Ha Hc. rewrite line_part_bang, comment_part_bang by done.
    unfold attach. by rewrite bool_decide_eq_false_2.
Qed.

(** C1: A continuation line is rescaled with the factor of the last
    assignment line before it, and its output sits at its index. *)
Theorem continuation_inherits pre raw post out :
  my_patch (pre ++ raw :: post) = Ok out → raw_kind raw = K_cont →
  ∃ b sf body, last_assign pre = Some b ∧ factor b = Ok sf ∧
    rescale_followup (line_part raw) sf = Ok body ∧
    out !! length pre = Some (attach body (comment_part raw)).
Proof.
  intros (o1 & s1 & o & s2 & o3 & s3 & Hpre & Hl & _ & ->)%my_patch_split Hk.
  apply patch_line_Ok in Hl as (new & Hh & ->).
  pose proof (patch_run_scale _ _ _ _ _ _ Hpre) as Hs.
  unfold raw_kind in Hk. unfold handle_line, Patch.handle_line in Hh. rewrite Hk in Hh.
  destruct (last_assign pre) as [b|].
  - destruct Hs as (sf & Hf & Hsc). rewrite Hsc in Hh. res_inv.
    exists b, sf, new. split_and!; try done.
    apply list_lookup_middle. symmetry. by eapply patch_run_length.
  - subst s1. done.
Qed.

(** C8: A continuation line with no assignment line before it raises
    [UnboundLocalError] for [scale]. *)
Theorem orphan_continuation pre raw post o1 st :
  patch_run init_state pre = Ok (o1, st) → last_assign pre = None → raw_kind raw = K_cont →
  my_patch (pre ++ raw :: post) = Err (UnboundLocalError (pystr "scale")).
Proof.
  intros Hpre Hn Hk. pose proof (patch_run_scale _ _ _ _ _ _ Hpre) as Hs. rewrite Hn in Hs. subst st.
  unfold my_patch, Patch.my_patch. rewrite patch_run_app_eq, Hpre. simpl.
  unfold Patch.patch_line, Patch.handle_line. unfold raw_kind in Hk. by rewrite Hk.
Qed.

(** C9: The first line that raises aborts the whole pass with its
    exception. *)
Theorem my_patch_abort pre raw post o1 st e :
  patch_run init_state pre = Ok (o1, st) → patch_line st raw = Err e →
  my_patch (pre ++ raw :: post) = Err e.
Proof.
  intros Hpre Hl. unfold my_patch, Patch.my_patch. rewrite patch_run_app_eq, Hpre. simpl.
  by rewrite Hl.
Qed.

(** C2: An assignment line is rescaled by the function of its branch with
    the factor of its branch, and its output sits at its index. *)
Theorem assignment_rescaled pre raw post out b :
  my_patch (pre ++ raw :: post) = Ok out → raw_kind raw = K_assign b →
  ∃ sf body, factor b = Ok sf ∧
    match branch_style b with
    | Multi => rescale_multiarrayline (line_part raw) sf = Ok body
    | Array => rescale_arrayline (line_part raw) sf = Ok body
    | Unit => body = line_part raw
    end ∧
    out !! length pre = Some (attach body (comment_part raw)).
Proof.
  intros (o1 & s1 & o & s2 & o3 & s3 & Hpre & Hl & _ & ->)%my_patch_split Hk.
  apply patch_line_Ok in Hl as (new & Hh & ->).
  assert (Hidx : (o1 ++ attach new (comment_part raw) :: o3) !! length pre =
                 Some (attach new (comment_part raw))).
  { apply list_lookup_middle. symmetry. by eapply patch_run_length. }
  unfold raw_kind in Hk. unfold handle_line, Patch.handle_line in Hh. rewrite Hk in Hh.
  unfold assign_line in Hh. destruct (branch_style b); res_inv; eauto 10.
Qed.


(** C19: A last line made of a lone [!] without a newline comes out as the
    empty string: its comment is empty and so is the text before it. *)
Theorem lone_bang_last_line lines out :
  my_patch (lines ++ [pystr "!"]) = Ok out → last out = Some [].
Proof.
  intros (o1 & s1 & o & s2 & o3 & s3 & _ & Hl & Hp & ->)%my_patch_split.
  simpl in Hp. injection Hp as <- _.
  apply patch_line_Ok in Hl as (new & Hh & ->).
  unfold handle_line, Patch.handle_line in Hh. simpl in Hh. injection Hh as <- _.
  by rewrite last_snoc.
Qed.
End EngineTheorems.

(** ** The dispatch chain *)

(** A slice test implies the tests of its shorter prefixes. *)
Lemma slice_eq_prefix l n m s s' :
  (n <= m)%nat → take n (pystr s') = pystr s → slice_eq l m s' = true → slice_eq l n s = true.
Proof.
  unfold slice_eq. rewrite !bool_decide_eq_true. intros Hnm Hs Hm.
  replace (take n l) with (take n (take m l)) by (rewrite take_take; f_equal; lia).
  by rewrite Hm.
Qed.

(** C23: The [raxis_cc] and [zaxis_cc] branches are never taken. *)
Theorem classify_cc_dead l : classify l ≠ Br_raxis_cc ∧ classify l ≠ Br_zaxis_cc.
Proof.
  unfold classify.
  destruct (_ || _ || _ || _); [done|].
  destruct (slice_eq l 5 "raxis") eqn:E5; [done|].
  destruct (slice_eq l 8 "raxis_cc") eqn:E8.
  { apply (slice_eq_prefix l 5 8 "raxis") in E8; [congruence|lia|done]. }
  destruct (slice_eq l 5 "zaxis") eqn:Z5; [done|].
  destruct (slice_eq l 8 "zaxis_cc") eqn:Z8.
  { apply (slice_eq_prefix l 5 8 "zaxis") in Z8; [congruence|lia|done]. }
  repeat case_match; done.
Qed.

(** ** Concrete runs (binary64) *)

Section Samples.
Definition R2 : f64 := f64_lit "2.0".
Definition B3 : f64 := f64_lit "3.0".

Definition sample_in : list str :=
  [pyline "&INDATA"; pyline "  PHIEDGE = 1.0 ! flux"; pyline "  RAXIS = 1.0 2.0";
   pyline "   3.0 4.0"; pyline "  NTOR = 5"; pyline "/"].

Definition sample_out : list str :=
  Eval vm_compute in
    match my_patch R2 B3 sample_in with Ok o => o | Err _ => [] end.
End Samples.

Lemma my_patch_length_witness :
  my_patch R2 B3 sample_in = Ok sample_out ∧ length sample_out = length sample_in.
Proof.
  assert (H : my_patch R2 B3 sample_in = Ok sample_out) by (vm_compute; reflexivity).
  split; [exact H|exact (my_patch_length R2 B3 sample_in sample_out H)].
Defined.

Lemma my_patch_newline_witness :
  my_patch R2 B3 sample_in = Ok sample_out ∧
  Forall2 (λ raw o, nl ∉ drop_last raw → ends_nl o = ends_nl raw ∧ nl ∉ drop_last o)
    sample_in sample_out.
Proof.
  assert (H : my_patch R2 B3 sample_in = Ok sample_out) by (vm_compute; reflexivity).
  split; [exact H|exact (my_patch_newline R2 B3 sample_in sample_out H)].
Defined.

Lemma my_patch_comment_witness :
  my_patch R2 B3 sample_in = Ok sample_out ∧
  Forall2 (λ raw o, ∀ a c, raw = a ++ "!"%char :: c → "!"%char ∉ a → c ≠ [] →
                     ∃ body, o = body ++ bang_sep ++ c) sample_in sample_out.
Proof.
  assert (H : my_patch R2 B3 sample_in = Ok sample_out) by (vm_compute; reflexivity).
  split; [exact H|exact (my_patch_comment R2 B3 sample_in sample_out H)].
Defined.

(** A group marker with a comment gains a blank before the [!]. *)
Definition group_in : list str := [pyline "&INDATA ! run 7"; pyline "  NTOR = 5"].

Lemma my_patch_passthrough_witness :
  my_patch R2 B3 group_in = Ok [pyline "&INDATA  ! run 7"; pyline "  NTOR = 5"] ∧
  Forall2 (λ raw o, raw_kind raw ∈ [K_empty; K_group; K_end; K_assign Br_none] →
             ("!"%char ∉ raw → o = raw) ∧
             (∀ a c, raw = a ++ "!"%char :: c → "!"%char ∉ a → c ≠ [] → o = a ++ bang_sep ++ c))
    group_in [pyline "&INDATA  ! run 7"; pyline "  NTOR = 5"].
Proof.
  assert (H : my_patch R2 B3 group_in = Ok [pyline "&INDATA  ! run 7"; pyline "  NTOR = 5"])
    by (vm_compute; reflexivity).
  split; [exact H|exact (my_patch_passthrough R2 B3 _ _ H)].
Defined.

(** A continuation after a group boundary still uses the factor of the
    [RAXIS] line of the previous group. *)
Definition cont_pre : list str :=
  [pyline "&INDATA"; pyline "  RAXIS = 1.0"; pyline "/"; pyline "&OTHER"].
Definition cont_raw : str := pyline "   3.0 4.0".
Definition cont_out : list str :=
  Eval vm_compute in
    match my_patch R2 B3 (cont_pre ++ [cont_raw]) with Ok o => o | Err _ => [] end.

Lemma continuation_inherits_witness :
  my_patch R2 B3 (cont_pre ++ [cont_raw]) = Ok cont_out ∧ raw_kind cont_raw = K_cont ∧
  ∃ b sf body, last_assign cont_pre = Some b ∧ factor R2 B3 b = Ok sf ∧
    rescale_followup (line_part cont_raw) sf = Ok body ∧
    cont_out !! length cont_pre = Some (attach body (comment_part cont_raw)).
Proof.
  assert (H : my_patch R2 B3 (cont_pre ++ [cont_raw]) = Ok cont_out) by (vm_compute; reflexivity).
  assert (Hk : raw_kind cont_raw = K_cont) by (vm_compute; reflexivity).
  split; [exact H|]. split; [exact Hk|].
  exact (continuation_inherits R2 B3 cont_pre cont_raw [] cont_out H Hk).
Defined.

Definition assign_pre : list str := [pyline "&INDATA"; pyline "  PHIEDGE = 1.0 ! flux"].
Definition assign_raw : str := pyline "  RAXIS = 1.0 2.0".
Definition assign_post : list str := [pyline "   3.0 4.0"; pyline "  NTOR = 5"; pyline "/"].

Lemma assignment_rescaled_witness :
  my_patch R2 B3 (assign_pre ++ assign_raw :: assign_post) = Ok sample_out ∧
  raw_kind assign_raw = K_assign Br_raxis ∧
  ∃ sf body, factor R2 B3 Br_raxis = Ok sf ∧
    match branch_style Br_raxis with
    | Multi => rescale_multiarrayline (line_part assign_raw) sf = Ok body
    | Array => rescale_arrayline (line_part assign_raw) sf = Ok body
    | Unit => body = line_part assign_raw
    end ∧
    sample_out !! length assign_pre = Some (attach body (comment_part assign_raw)).
Proof.
  assert (H : my_patch R2 B3 (assign_pre ++ assign_raw :: assign_post) = Ok sample_out)
    by (vm_compute; reflexivity).
  assert (Hk : raw_kind assign_raw = K_assign Br_raxis) by (vm_compute; reflexivity).
  split; [exact H|]. split; [exact Hk|].
  exact (assignment_rescaled R2 B3 assign_pre assign_raw assign_post sample_out Br_raxis H Hk).
Defined.


Lemma lone_bang_last_line_witness :
  my_patch R2 B3 ([pyline "&INDATA"] ++ [pystr "!"]) = Ok [pyline "&INDATA"; []] ∧
  last [pyline "&INDATA"; []] = Some [].
Proof.
  assert (H : my_patch R2 B3 ([pyline "&INDATA"] ++ [pystr "!"]) = Ok [pyline "&INDATA"; []])
    by (vm_compute; reflexivity).
  split; [exact H|exact (lone_bang_last_line R2 B3 _ _ H)].
Defined.

Lemma orphan_continuation_witness :
  patch_run R2 B3 init_state [pyline "&INDATA"] = Ok ([pyline "&INDATA"], init_state) ∧
  last_assign [pyline "&INDATA"] = None ∧ raw_kind (pyline "  1.0 2.0") = K_cont ∧
  my_patch R2 B3 ([pyline "&INDATA"] ++ [pyline "  1.0 2.0"]) =
    Err (UnboundLocalError (pystr "scale")).
Proof.
  assert (H1 : patch_run R2 B3 init_state [pyline "&INDATA"] = Ok ([pyline "&INDATA"], init_state))
    by (vm_compute; reflexivity).
  assert (H2 : last_assign [pyline "&INDATA"] = None) by (vm_compute; reflexivity).
  assert (H3 : raw_kind (pyline "  1.0 2.0") = K_cont) by (vm_compute; reflexivity).
  split; [exact H1|]. split; [exact H2|]. split; [exact H3|].
  exact (orphan_continuation R2 B3 _ _ [] _ _ H1 H2 H3).
Defined.

Definition abort_pre : list str := [pyline "  RAXIS = 1.0"].
Definition abort_state : state f64 :=
  Eval vm_compute in
    match patch_run R2 B3 init_state abort_pre with Ok (_, st) => st | Err _ => init_state end.

Lemma my_patch_abort_witness :
  patch_run R2 B3 init_state abort_pre =
    Ok ([pyline "  RAXIS  =  2.000000000000000e+00"], abort_state) ∧
  patch_line R2 B3 abort_state (pyline "  1.0 x,") = Err (ValueError (pystr "x")) ∧
  my_patch R2 B3 (abort_pre ++ [pyline "  1.0 x,"; pyline "  NTOR = 5"]) =
    Err (ValueError (pystr "x")).
Proof.
  assert (H1 : patch_run R2 B3 init_state abort_pre =
                 Ok ([pyline "  RAXIS  =  2.000000000000000e+00"], abort_state))
    by (vm_compute; reflexivity).
  assert (H2 : patch_line R2 B3 abort_state (pyline "  1.0 x,") = Err (ValueError (pystr "x")))
    by (vm_compute; reflexivity).
  split; [exact H1|]. split; [exact H2|].
  exact (my_patch_abort R2 B3 _ _ _ _ _ _ H1 H2).
Defined.

(** ** Which factors raise (binary64) *)

(** C22: A factor raises only on an [ac] line with a zero [R_scale]
    ([ZeroDivisionError]), or when the square it needs overflows: of
    [R_scale] on a [phiedge] line, of [B_scale] on a [pres_scale] or
    [am] line ([OverflowError]). *)
Theorem factor_Err (R_scale B_scale : f64) b e :
  factor R_scale B_scale b = Err e ↔
  (b = Br_ac ∧ (∃ s, R_scale = S754_zero s) ∧ e = ZeroDivisionError) ∨
  (b = Br_phiedge ∧ sq_overflows R_scale ∧ e = OverflowError) ∨
  ((b = Br_pres_scale ∨ b = Br_am) ∧ sq_overflows B_scale ∧ e = OverflowError).
Proof.
  destruct b; unfold factor; simpl;
    rewrite ?bind_eq_Err, ?f64_div_Err, ?f64_sq_Err; naive_solver.
Qed.

(** C24: A multi-array ([rbc], [zbs], [rbs], [zbc]) line whose last piece
    holds a comma, as in [RBC(0,0) = 1.0, ZBS(0,0) = 0.5,], aborts the
    whole pass: the last piece reaches [float] with the comma. *)
Theorem multiarray_comma_aborts (R_scale B_scale : f64) pre raw post out :
  raw_kind raw = K_assign Br_rbc →
  ","%char ∈ default [] (last (split_sep "="%char (line_part raw))) →
  my_patch R_scale B_scale (pre ++ raw :: post) ≠ Ok out.
Proof.
  intros Hk Hc (o1 & s1 & o & s2 & o3 & s3 & _ & Hl & _ & _)%my_patch_split.
  apply patch_line_Ok in Hl as (new & Hh & _).
  unfold raw_kind in Hk. unfold handle_line in Hh. rewrite Hk in Hh.
  unfold assign_line in Hh. simpl in Hh. apply bind_eq_Ok in Hh as (nl' & Hm & _).
  unfold rescale_multiarrayline in Hm. apply bind_eq_Ok in Hm as (items & _ & Hm).
  apply bind_eq_Ok in Hm as (vlast & Hv & _).
  unfold to_float in Hv. simpl in Hv. by rewrite float_from_string_comma in Hv.
Qed.

Lemma multiarray_comma_aborts_witness :
  raw_kind (pyline "RBC(0,0) = 1.0, ZBS(0,0) = 0.5,") = K_assign Br_rbc ∧
  ","%char ∈ default [] (last (split_sep "="%char (line_part (pyline "RBC(0,0) = 1.0, ZBS(0,0) = 0.5,")))) ∧
  my_patch R2 B3 ([pyline "&INDATA"] ++ pyline "RBC(0,0) = 1.0, ZBS(0,0) = 0.5," :: [pyline "/"]) ≠ Ok [].
Proof.
  assert (Hk : raw_kind (pyline "RBC(0,0) = 1.0, ZBS(0,0) = 0.5,") = K_assign Br_rbc)
    by (vm_compute; reflexivity).
  assert (Hc : ","%char ∈ default [] (last (split_sep "="%char
                 (line_part (pyline "RBC(0,0) = 1.0, ZBS(0,0) = 0.5,")))))
    by (vm_compute; set_solver).
  split_and!; [exact Hk|exact Hc|exact (multiarray_comma_aborts R2 B3 _ _ _ [] Hk Hc)].
Defined.

Lemma factor_Err_witness :
  factor (f64_lit "1e200") B3 Br_phiedge = Err OverflowError ∧
  ((Br_phiedge = Br_ac ∧ (∃ s, f64_lit "1e200" = S754_zero s) ∧ OverflowError = ZeroDivisionError) ∨
   (Br_phiedge = Br_phiedge ∧ sq_overflows (f64_lit "1e200") ∧ OverflowError = OverflowError) ∨
   ((Br_phiedge = Br_pres_scale ∨ Br_phiedge = Br_am) ∧ sq_overflows B3 ∧
    OverflowError = OverflowError)).
Proof.
  assert (H : factor (f64_lit "1e200") B3 Br_phiedge = Err OverflowError) by (vm_compute; reflexivity).
  split; [exact H|exact (proj1 (factor_Err _ _ _ _) H)].
Defined.
