(* ===== verification/Driver.v ===== *)
(** * The driver: [readlines], [scale_vmec] and [__main__]

    [my_patch] opens the input file and calls [f.readlines()] (text mode,
    universal newlines: [\r\n] and a lone [\r] read as [\n]); [scale_vmec]
    (lines 154-161) computes the output name ([input + "_scaled"] unless
    one is given), runs [my_patch], and only then opens the output file
    with mode ["w"] (truncate) and writes the lines.  The file system is a
    finite map from paths to contents; [scale_vmec] returns the new file
    system with the outcome.  [main] is the [__main__] block (lines
    164-179): it prints the usage line first in every run, exits when
    fewer than three arguments follow the program name, takes the fourth
    one as the output name only when there are exactly four, and parses
    [B_scale] and [R_scale] with [float].  Printed text is modelled by
    events. *)

From stdpp Require Import gmap.
From S2P Require Import Prelude PyStr NumModel Binary64 Reparse Rescale Patch.

Definition cr : ascii := "013"%char.

(** ** Reading: universal newlines and [readlines] *)

Fixpoint translate_newlines (s : str) : str :=
  match s with
  | [] => []
  | c :: t =>
      if decide (c = cr) then
        nl :: match t with
              | c' :: t' => if decide (c' = nl) then translate_newlines t' else translate_newlines t
              | [] => []
              end
      else c :: translate_newlines t
  end.

(** The lines of a translated text, each with its newline; [acc] is the
    current line, reversed. *)
Fixpoint lines_acc (acc : str) (s : str) : list str :=
  match s with
  | [] => match acc with [] => [] | _ => [rev acc] end
  | c :: t => if decide (c = nl) then rev (nl :: acc) :: lines_acc [] t else lines_acc (c :: acc) t
  end.

Definition readlines (content : str) : list str := lines_acc [] (translate_newlines content).

(** ** The file system *)

Abbreviation fsys := (gmap str str).

Definition open_read (fs : fsys) (path : str) : result str :=
  match fs !! path with Some c => Ok c | None => Err (FileNotFoundError path) end.

Definition scaled_suffix : str := pystr "_scaled".

(** [if outputFilename is None: outputFilename = inputFilename + "_scaled"]. *)
Definition output_name (input : str) (output : option str) : str :=
  match output with Some o => o | None => input ++ scaled_suffix end.

(** [s.count('\n')]: the number of lines a reader finds terminated. *)
Definition count_nl (s : str) : nat := length (filter (λ c, c = nl) s).

(** What [__main__] prints: the usage line, and the two factors. *)
Inductive event (A : Type) := EvUsage | EvScales (B_scale R_scale : A).
Arguments EvUsage {A}.
Arguments EvScales {A} B_scale R_scale.

Section Driver.
Context `{NumModel}.

(** [my_patch(inputFilename, R_scale, B_scale)] with its file reading. *)
Definition my_patch_file (fs : fsys) (input : str) (R_scale B_scale : num) : result (list str) :=
  content ← open_read fs input;
  my_patch R_scale B_scale (readlines content).

Definition scale_vmec (fs : fsys) (input : str) (B_scale R_scale : num) (output : option str)
    : fsys * result () :=
  let outputFilename := output_name input output in
  match my_patch_file fs input R_scale B_scale with
  | Ok new_lines => (<[outputFilename := concat new_lines]> fs, Ok ())
  | Err e => (fs, Err e)
  end.

(** ** The command line *)

Definition main (fs : fsys) (argv : list str) : list (event num) * (fsys * result ()) :=
  if decide (length argv < 4)%nat then ([EvUsage], (fs, Ok ()))
  else
    let outputFilename := if decide (length argv = 5)%nat then argv !! 4%nat else None in
    let inputFilename := default [] (argv !! 1%nat) in
    match to_float (default [] (argv !! 2%nat)) with
    | Err e => ([EvUsage], (fs, Err e))
    | Ok B_scale =>
        match to_float (default [] (argv !! 3%nat)) with
        | Err e => ([EvUsage], (fs, Err e))
        | Ok R_scale =>
            ([EvUsage; EvScales B_scale R_scale],
             scale_vmec fs inputFilename B_scale R_scale outputFilename)
        end
    end.
End Driver.

(** ** Laws of reading *)

(** The lines [readlines] can return: each but the last ends with its
    only newline; the last has no newline and is not empty. *)
Inductive lines_wf : list str → Prop :=
| lines_wf_nil : lines_wf []
| lines_wf_last l : l ≠ [] → nl ∉ l → lines_wf [l]
| lines_wf_cons b ls : nl ∉ b → lines_wf ls → lines_wf ((b ++ [nl]) :: ls).

Lemma lines_acc_concat acc s : concat (lines_acc acc s) = rev acc ++ s.
Proof.
  revert acc; induction s as [|c t IH]; intros acc; simpl.
  - destruct acc; simpl; by rewrite ?app_nil_r.
  - case_decide; simpl.
    + subst. rewrite IH; simpl; by rewrite <-app_assoc.
    + rewrite IH; simpl; by rewrite <-app_assoc.
Qed.

Lemma lines_acc_wf acc s : nl ∉ acc → lines_wf (lines_acc acc s).
Proof.
  revert acc; induction s as [|c t IH]; intros acc Hacc; simpl.
  - destruct acc as [|a acc']; [constructor|].
    constructor; [simpl; by destruct (rev acc')|by rewrite elem_of_rev_iff].
  - case_decide; simpl.
    + constructor; [by rewrite elem_of_rev_iff|apply IH; set_solver].
    + apply IH. set_solver.
Qed.

Lemma lines_acc_line acc b t :
  nl ∉ b → lines_acc acc (b ++ nl :: t) = (rev acc ++ b ++ [nl]) :: lines_acc [] t.
Proof.
  revert acc; induction b as [|c b IH]; intros acc Hb; simpl; [done|].
  case_decide; [set_solver|]. rewrite IH by set_solver. simpl. by rewrite <-app_assoc.
Qed.

Lemma lines_acc_free acc l : nl ∉ l → rev acc ++ l ≠ [] → lines_acc acc l = [rev acc ++ l].
Proof.
  revert acc; induction l as [|c l IH]; intros acc Hl Hne; simpl.
  - destruct acc; [done|]. by rewrite app_nil_r.
  - case_decide; [set_solver|].
    rewrite IH by (simpl; rewrite <-?app_assoc; set_solver). simpl. by rewrite <-app_assoc.
Qed.

Lemma lines_acc_concat_wf ls : lines_wf ls → lines_acc [] (concat ls) = ls.
Proof.
  induction 1 as [|l Hne Hl|b ls Hb _ IH]; simpl.
  - done.
  - rewrite app_nil_r, lines_acc_free by done. done.
  - rewrite <-?app_assoc. simpl. rewrite lines_acc_line, IH by done. done.
Qed.

Lemma translate_newlines_no_cr s : cr ∉ translate_newlines s.
Proof.
  cut (cr ∉ translate_newlines s ∧ ∀ x s', s = x :: s' → cr ∉ translate_newlines s').
  { by intros []. }
  induction s as [|c t [IH1 IH2]]; simpl; [split; [set_solver|done]|].
  split; [|by intros ?? [= _ <-]].
  case_decide; [|set_solver].
  destruct t as [|c' t']; [set_solver|]. case_decide; [|set_solver].
  rewrite elem_of_cons. intros [Hc|Hin]; [done|]. by eapply IH2.
Qed.

Lemma translate_newlines_id s : cr ∉ s → translate_newlines s = s.
Proof.
  induction s as [|c t IH]; intros Hs; simpl; [done|].
  case_decide; [set_solver|]. f_equal. apply IH. set_solver.
Qed.

Lemma lines_wf_drop_last ls : lines_wf ls → Forall (λ l, nl ∉ drop_last l) ls.
Proof.
  induction 1 as [|l _ Hl|b ls Hb _ IH]; repeat constructor; try done.
  - by apply drop_last_free.
  - by rewrite drop_last_snoc.
Qed.

Lemma count_nl_app s t : count_nl (s ++ t) = (count_nl s + count_nl t)%nat.
Proof. unfold count_nl. by rewrite filter_app, length_app. Qed.

Lemma count_nl_free s : nl ∉ s → count_nl s = 0%nat.
Proof.
  intros Hs. unfold count_nl. destruct (filter _ s) as [|y ys] eqn:E; [done|].
  assert (Hy : y ∈ filter (λ c, c = nl) s) by (rewrite E; left).
  apply list_elem_of_filter in Hy as [-> Hy]. done.
Qed.

(** A line with no newline but at its end counts one newline if it ends
    with one, and none otherwise. *)
Lemma count_nl_line l : nl ∉ drop_last l → count_nl l = if ends_nl l then 1%nat else 0%nat.
Proof.
  destruct (decide (l = [])) as [->|Hne]; [done|].
  destruct (exists_last Hne) as (l' & x & ->).
  rewrite drop_last_snoc. intros Hl. unfold ends_nl. rewrite last_snoc, count_nl_app.
  rewrite count_nl_free by done. unfold count_nl.
  case_bool_decide as Hx; simplify_eq.
  - by rewrite filter_cons_True.
  - rewrite filter_cons_False by congruence. done.
Qed.

(** Lines that keep their newline discipline keep the newline count of
    the text. *)
Lemma count_nl_concat lines out :
  Forall2 (λ raw o, nl ∉ drop_last raw → ends_nl o = ends_nl raw ∧ nl ∉ drop_last o) lines out →
  Forall (λ l, nl ∉ drop_last l) lines →
  count_nl (concat out) = count_nl (concat lines).
Proof.
  induction 1 as [|raw o lines out Hro _ IH]; intros Hf; [done|].
  apply Forall_cons in Hf as [Hraw Hf]. simpl. rewrite !count_nl_app, IH by done.
  destruct (Hro Hraw) as [He Ho]. by rewrite (count_nl_line o), (count_nl_line raw), He.
Qed.

(** ** What the driver guarantees *)

Section DriverTheorems.
Context `{NumModel}.

(** C25: [readlines] then [writelines] gives back the text, its line ends
    translated. *)
Theorem readlines_concat s : concat (readlines s) = translate_newlines s.
Proof. unfold readlines. apply lines_acc_concat. Qed.

(** C26: Every line [readlines] returns ends with its only newline, except a
    last line, which has none and is not empty. *)
Theorem readlines_wf s : lines_wf (readlines s).
Proof. apply lines_acc_wf. set_solver. Qed.

(** C27: Splitting a carriage-return-free text into well-formed lines and
    reading it back gives the same lines. *)
Theorem readlines_concat_wf ls : lines_wf ls → cr ∉ concat ls → readlines (concat ls) = ls.
Proof.
  intros Hwf Hcr. unfold readlines. rewrite translate_newlines_id by done.
  by apply lines_acc_concat_wf.
Qed.

Lemma scale_vmec_cases fs input B_scale R_scale output :
  scale_vmec fs input B_scale R_scale output =
  match my_patch_file fs input R_scale B_scale with
  | Ok new_lines => (<[output_name input output := concat new_lines]> fs, Ok ())
  | Err e => (fs, Err e)
  end.
Proof. done. Qed.

(** C7: A failed run leaves every file as it was: the output is opened only
    after the whole transformation succeeded. *)
Theorem scale_vmec_Err fs input B_scale R_scale output fs' e :
  scale_vmec fs input B_scale R_scale output = (fs', Err e) → fs' = fs.
Proof. rewrite scale_vmec_cases. by destruct (my_patch_file _ _ _ _); intros [=]. Qed.

(** C17: A successful run read the input, transformed all its lines, and
    replaced (truncate-and-write) the output file by their
    concatenation; no other file changes. *)
Theorem scale_vmec_Ok fs input B_scale R_scale output fs' :
  scale_vmec fs input B_scale R_scale output = (fs', Ok ()) ↔
  ∃ content new_lines, fs !! input = Some content ∧
    my_patch R_scale B_scale (readlines content) = Ok new_lines ∧
    fs' = <[output_name input output := concat new_lines]> fs.
Proof.
  rewrite scale_vmec_cases. unfold my_patch_file, open_read.
  destruct (fs !! input) as [content|]; simpl;
    [|split; [intros [=]|intros (? & ? & [=] & _)]].
  destruct (my_patch R_scale B_scale (readlines content)) as [new_lines|e] eqn:E; split.
  - intros [= <-]. eauto.
  - intros (c & n & [= <-] & Hn & ->). rewrite E in Hn. by simplify_eq.
  - done.
  - intros (c & n & [= <-] & Hn & _). by rewrite E in Hn.
Qed.

(** C30: A missing input raises [FileNotFoundError] and writes nothing. *)
Theorem scale_vmec_missing fs input B_scale R_scale output :
  fs !! input = None →
  scale_vmec fs input B_scale R_scale output = (fs, Err (FileNotFoundError input)).
Proof. intros Hin. rewrite scale_vmec_cases. unfold my_patch_file, open_read. by rewrite Hin. Qed.

(** C10: The written file has as many line ends as the input read in text
    mode: the transformation keeps every line's newline and adds none. *)
Theorem scale_vmec_newlines fs input B_scale R_scale output fs' content :
  scale_vmec fs input B_scale R_scale output = (fs', Ok ()) →
  fs !! input = Some content →
  ∃ written, fs' !! output_name input output = Some written ∧
    count_nl written = count_nl (translate_newlines content).
Proof.
  rewrite scale_vmec_cases. unfold my_patch_file, open_read. intros Hr Hin.
  rewrite Hin in Hr. simpl in Hr.
  destruct (my_patch R_scale B_scale (readlines content)) as [new_lines|e] eqn:Hp; [|done].
  injection Hr as <-. exists (concat new_lines). rewrite lookup_insert_eq. split; [done|].
  change (translate_newlines content) with (rev [] ++ translate_newlines content).
  rewrite <-lines_acc_concat. apply count_nl_concat.
  - eapply my_patch_pairs; [apply patch_line_newline|exact Hp].
  - apply lines_wf_drop_last, lines_acc_wf. set_solver.
Qed.
End DriverTheorems.

Section MainTheorems.
Context `{NumModel}.

(** C28: With fewer than three arguments after the program name, [main]
    prints the usage line and exits successfully, touching no file. *)
Theorem main_short fs argv :
  (length argv < 4)%nat → main fs argv = ([EvUsage], (fs, Ok ())).
Proof. intros Hl. unfold main. by case_decide. Qed.

(** C18: With three or more arguments whose second and third parse as
    floats, [main] prints the usage line and the two factors and runs
    [scale_vmec(argv[1], B, R, out)], where [out] is [argv[4]] when there
    are exactly four arguments and the default otherwise. *)
Theorem main_run fs prog input sB sR rest B_scale R_scale :
  to_float sB = Ok B_scale → to_float sR = Ok R_scale →
  main fs (prog :: input :: sB :: sR :: rest) =
  ([EvUsage; EvScales B_scale R_scale],
   scale_vmec fs input B_scale R_scale (match rest with [o] => Some o | _ => None end)).
Proof.
  intros HB HR. unfold main. case_decide; [simpl in *; lia|]. simpl.
  rewrite HB, HR. do 2 f_equal.
  destruct rest as [|o [|o' rest]]; simpl; try case_decide; simpl in *; done || lia.
Qed.

(** C29: A factor that does not parse raises [ValueError] naming it, after
    the usage line, before any file is touched. *)
Theorem main_bad_float fs prog input sB sR rest :
  (py_float sB = None →
     main fs (prog :: input :: sB :: sR :: rest) = ([EvUsage], (fs, Err (ValueError sB)))) ∧
  (∀ B_scale, py_float sB = Some B_scale → py_float sR = None →
     main fs (prog :: input :: sB :: sR :: rest) = ([EvUsage], (fs, Err (ValueError sR)))).
Proof.
  unfold main, to_float. case_decide; [simpl in *; lia|]. simpl.
  split; [by intros ->|]. intros B HB HR. by rewrite HB, HR.
Qed.
End MainTheorems.

(** ** A run on concrete files (binary64 numbers) *)


Definition crlf : str := [cr; nl].
Definition text_in : str :=
  pystr "&INDATA" ++ crlf ++ pystr "RAXIS = 1.0 0.5 ! axis" ++ crlf ++ pystr "/" ++ crlf.
Definition text_out : str :=
  pyline "&INDATA" ++ pyline "RAXIS  =  2.000000000000000e+00  1.000000000000000e+00 ! axis" ++
  pyline "/".
Definition text_bad : str :=
  pystr "&INDATA" ++ crlf ++ pystr "RAXIS = 1.0x" ++ crlf ++ pystr "/" ++ crlf.
Definition fs_in : fsys := <[pystr "in" := text_in]> ∅.
Definition fs_bad : fsys := <[pystr "in" := text_bad]> ∅.

(** ** Carriage returns (binary64 numbers) *)

Lemma elem_of_concat_iff {A} (x : A) (ls : list (list A)) :
  x ∈ concat ls ↔ ∃ l, l ∈ ls ∧ x ∈ l.
Proof.
  induction ls as [|l ls IH]; simpl; [set_solver|].
  rewrite elem_of_app, IH. set_solver.
Qed.

Lemma Forall2_elem_r {A B} (P : A → B → Prop) l k y :
  Forall2 P l k → y ∈ k → ∃ x, x ∈ l ∧ P x y.
Proof.
  intros Hf (i & Hi)%list_elem_of_lookup.
  destruct (Forall2_lookup_r _ _ _ _ _ Hf Hi) as (x & Hx & Hp).
  exists x. split; [by eapply list_elem_of_lookup_2|done].
Qed.

(** C21: The file a successful run writes holds no carriage return: the input
    is read with universal newlines, and the program adds none, so a file
    with [\r\n] line ends is written with [\n]. *)
Theorem scale_vmec_no_cr fs input (B_scale R_scale : f64) output fs' :
  scale_vmec fs input B_scale R_scale output = (fs', Ok ()) →
  ∃ written, fs' !! output_name input output = Some written ∧ cr ∉ written.
Proof.
  rewrite scale_vmec_cases. unfold my_patch_file, open_read.
  destruct (fs !! input) as [content|]; simpl; [|done].
  destruct (@my_patch binary64 R_scale B_scale (readlines content)) as [new_lines|e] eqn:Hp; [|done].
  intros [= <-]. exists (concat new_lines). rewrite lookup_insert_eq. split; [done|].
  intros (o & Ho & Hc)%elem_of_concat_iff.
  pose proof (my_patch_pairs R_scale B_scale
    (λ raw o, ∀ c, c ∈ o → c ∈ raw ∨ c ∈ pystr " =,!" ∨ ∃ x, c ∈ fmt_e15 x) _ _
    (λ st raw o st' Hl c, patch_line_chars R_scale B_scale st raw o st' c Hl) Hp) as Hf.
  destruct (Forall2_elem_r _ _ _ _ Hf Ho) as (raw & Hraw & Hro).
  destruct (Hro cr Hc) as [Hin|[Hin|[x Hin]]].
  - apply (translate_newlines_no_cr content). rewrite <-(app_nil_l (translate_newlines content)).
    change (@nil ascii) with (rev (@nil ascii)). rewrite <-lines_acc_concat.
    apply elem_of_concat_iff. by exists raw.
  - revert Hin. vm_compute. set_solver.
  - by apply (format_e15_no_cr x).
Qed.

Lemma scale_vmec_no_cr_witness :
  scale_vmec fs_in (pystr "in") B3 R2 None = (<[pystr "in_scaled" := text_out]> fs_in, Ok ()) ∧
  ∃ written, <[pystr "in_scaled" := text_out]> fs_in !! output_name (pystr "in") None = Some written ∧
    cr ∉ written.
Proof.
  assert (Hr : scale_vmec fs_in (pystr "in") B3 R2 None =
               (<[pystr "in_scaled" := text_out]> fs_in, Ok ())) by (vm_compute; reflexivity).
  split; [exact Hr|exact (scale_vmec_no_cr _ _ _ _ _ _ Hr)].
Defined.


Lemma readlines_concat_wf_witness :
  lines_wf [pyline "&INDATA"; pystr "/"] ∧ cr ∉ concat [pyline "&INDATA"; pystr "/"] ∧
  readlines (concat [pyline "&INDATA"; pystr "/"]) = [pyline "&INDATA"; pystr "/"].
Proof.
  assert (Hwf : lines_wf [pyline "&INDATA"; pystr "/"]).
  { apply lines_wf_cons; [vm_compute; set_solver|]. apply lines_wf_last; vm_compute; set_solver. }
  assert (Hcr : cr ∉ concat [pyline "&INDATA"; pystr "/"]) by (vm_compute; set_solver).
  split_and!; [exact Hwf|exact Hcr|exact (readlines_concat_wf _ Hwf Hcr)].
Defined.

Lemma scale_vmec_Err_witness :
  scale_vmec fs_bad (pystr "in") B3 R2 None = (fs_bad, Err (ValueError (pystr "1.0x"))) ∧ fs_bad = fs_bad.
Proof.
  assert (Hr : scale_vmec fs_bad (pystr "in") B3 R2 None = (fs_bad, Err (ValueError (pystr "1.0x"))))
    by (vm_compute; reflexivity).
  split; [exact Hr|exact (scale_vmec_Err _ _ _ _ _ _ _ Hr)].
Defined.

Lemma scale_vmec_newlines_witness :
  scale_vmec fs_in (pystr "in") B3 R2 None = (<[pystr "in_scaled" := text_out]> fs_in, Ok ()) ∧
  fs_in !! pystr "in" = Some text_in ∧
  ∃ written, <[pystr "in_scaled" := text_out]> fs_in !! output_name (pystr "in") None = Some written ∧
    count_nl written = count_nl (translate_newlines text_in).
Proof.
  assert (Hr : scale_vmec fs_in (pystr "in") B3 R2 None =
               (<[pystr "in_scaled" := text_out]> fs_in, Ok ())) by (vm_compute; reflexivity).
  assert (Hin : fs_in !! pystr "in" = Some text_in) by (vm_compute; reflexivity).
  split_and!; [exact Hr|exact Hin|exact (scale_vmec_newlines _ _ _ _ _ _ _ Hr Hin)].
Defined.

Lemma scale_vmec_missing_witness :
  (∅ : fsys) !! pystr "in" = None ∧
  scale_vmec ∅ (pystr "in") B3 R2 None = (∅, Err (FileNotFoundError (pystr "in"))).
Proof.
  assert (Hin : (∅ : fsys) !! pystr "in" = None) by reflexivity.
  split; [exact Hin|exact (scale_vmec_missing _ _ _ _ _ Hin)].
Defined.

Lemma main_short_witness :
  (length [pystr "scale_vmec.py"; pystr "in"] < 4)%nat ∧
  main fs_in [pystr "scale_vmec.py"; pystr "in"] = ([EvUsage], (fs_in, Ok ())).
Proof. split; [simpl; lia|apply main_short; simpl; lia]. Defined.

Lemma main_run_witness :
  to_float (pystr "3.0") = Ok B3 ∧ to_float (pystr "2.0") = Ok R2 ∧
  main fs_in (pystr "scale_vmec.py" :: pystr "in" :: pystr "3.0" :: pystr "2.0" :: [pystr "out"]) =
  ([EvUsage; EvScales B3 R2], scale_vmec fs_in (pystr "in") B3 R2 (Some (pystr "out"))).
Proof.
  assert (HB : to_float (pystr "3.0") = Ok B3) by (vm_compute; reflexivity).
  assert (HR : to_float (pystr "2.0") = Ok R2) by (vm_compute; reflexivity).
  split_and!; [exact HB|exact HR|exact (main_run _ _ _ _ _ [pystr "out"] _ _ HB HR)].
Defined.

Lemma main_bad_float_witness :
  py_float (pystr "3,0") = None ∧
  main fs_in [pystr "p"; pystr "in"; pystr "3,0"; pystr "2.0"] =
    ([EvUsage], (fs_in, Err (ValueError (pystr "3,0")))).
Proof.
  assert (Hb : py_float (pystr "3,0") = None) by (vm_compute; reflexivity).
  split; [exact Hb|exact (proj1 (main_bad_float fs_in _ _ _ _ []) Hb)].
Defined.
